(** * An interactive cubic Bezier curve (scripts/app.js)

    A shallow embedding of the three classes of the script ([Point],
    [DraggablePoint], [BezierCurve]), of the pointer handlers and of the
    animation tick, followed by the properties of the De Casteljau overlay,
    of the parameter [t] and of the drag state machine.

    JavaScript numbers are IEEE-754 binary64 values.  The program is written
    once over an interface [Number] of the arithmetic it uses; the instance
    [JSNumber] interprets it with Rocq's primitive binary64 floats (what the
    script computes), the instance [ExactNumber] with the rationals (the
    arithmetic without rounding). *)

From Stdlib Require Import List String Ascii Bool Arith ZArith QArith Qabs Lia Lqa.
From Stdlib Require Import Floats.
Import ListNotations.

Close Scope Q_scope.
Open Scope string_scope.
Open Scope nat_scope.

(* ================================================================== *)
(** ** Numbers *)

Class Number (num : Type) : Type := {
  nadd : num -> num -> num;
  nsub : num -> num -> num;
  nmul : num -> num -> num;
  ndiv : num -> num -> num;
  (** [a < b] and [a <= b] *)
  nlt : num -> num -> bool;
  nle : num -> num -> bool;
  (** a decimal literal of the source text *)
  nlit : Q -> num
}.

Declare Scope js_scope.
Delimit Scope js_scope with js.
Notation "a + b" := (nadd a b) : js_scope.
Notation "a - b" := (nsub a b) : js_scope.
Notation "a * b" := (nmul a b) : js_scope.
Notation "a / b" := (ndiv a b) : js_scope.
Notation "a <? b" := (nlt a b) : js_scope.
Notation "a <=? b" := (nle a b) : js_scope.
Notation "a >? b" := (nlt b a) : js_scope.
Notation "a >=? b" := (nle b a) : js_scope.

(** An integer as a binary64 value (exact below 2^53). *)
Definition float_of_Z (z : Z) : float :=
  match z with
  | Zneg p => PrimFloat.opp (PrimFloat.of_uint63 (Uint63.of_Z (Zpos p)))
  | _ => PrimFloat.of_uint63 (Uint63.of_Z z)
  end.

(** The binary64 value of a decimal literal: numerator and denominator are
    exact for every literal of the script, and the division rounds to
    nearest, so this is the double closest to the literal. *)
Definition float_of_literal (q : Q) : float :=
  PrimFloat.div (float_of_Z (Qnum q)) (float_of_Z (Zpos (Qden q))).

#[export] Instance JSNumber : Number float := {|
  nadd := PrimFloat.add;
  nsub := PrimFloat.sub;
  nmul := PrimFloat.mul;
  ndiv := PrimFloat.div;
  nlt := PrimFloat.ltb;
  nle := PrimFloat.leb;
  nlit := float_of_literal
|}.

#[export] Instance ExactNumber : Number Q := {|
  nadd := Qplus;
  nsub := Qminus;
  nmul := Qmult;
  ndiv := Qdiv;
  nlt := fun a b => negb (Qle_bool b a);
  nle := Qle_bool;
  nlit := fun q => q
|}.

(** The rational value of a finite binary64 number. *)
Definition SF2Q (f : SpecFloat.spec_float) : option Q :=
  match f with
  | SpecFloat.S754_zero _ => Some (0 # 1)%Q
  | SpecFloat.S754_finite s m e =>
      let mag :=
        if (0 <=? e)%Z then inject_Z (Zpos m * 2 ^ e)
        else Qmake (Zpos m) (Z.to_pos (2 ^ (- e))) in
      Some (if s then Qopp mag else mag)
  | _ => None
  end.

Definition float_to_Q (f : float) : option Q := SF2Q (Prim2SF f).

(* ================================================================== *)
(** ** Exceptions and the state monad of method bodies *)

Inductive JSError : Type := TypeError.

Inductive completion (A : Type) : Type :=
| Normal (a : A)
| Throw (e : JSError).
Arguments Normal {A} a.
Arguments Throw {A} e.

(** A method body: from the state before to a completion and the state
    after (the state at the throw when it throws). *)
Definition M (S A : Type) : Type := S -> completion A * S.

Definition ret {S A} (a : A) : M S A := fun s => (Normal a, s).

Definition bind {S A B} (m : M S A) (k : A -> M S B) : M S B :=
  fun s =>
    match m s with
    | (Normal a, s') => k a s'
    | (Throw e, s') => (Throw e, s')
    end.

Definition throw {S A} (e : JSError) : M S A := fun s => (Throw e, s).

Declare Scope monad_scope.
Delimit Scope monad_scope with monad.
Notation "x <- m ;; k" := (bind m (fun x => k))
  (at level 61, m at next level, right associativity) : monad_scope.
Notation "m ;; k" := (bind m (fun _ => k))
  (at level 61, right associativity) : monad_scope.
Open Scope monad_scope.

(** [for (...) body] over the listed values, [arr.forEach(body)] over the
    elements of an array the body does not resize. *)
Fixpoint for_ {S A} (l : list A) (body : A -> M S unit) : M S unit :=
  match l with
  | [] => ret tt
  | a :: l' => body a ;; for_ l' body
  end.

Definition when_ {S} (b : bool) (m : M S unit) : M S unit :=
  if b then m else ret tt.

(** [a[i] = v] on an array that has index [i]. *)
Fixpoint update {A} (i : nat) (v : A) (l : list A) : list A :=
  match l, i with
  | [], _ => []
  | _ :: l', O => v :: l'
  | a :: l', S i' => a :: update i' v l'
  end.

(** [String.fromCodePoint(0x2080 + i)], a subscript digit, in UTF-8. *)
Definition sub0 : nat := 0x2080.
Definition fromCodePoint (cp : nat) : string :=
  String (ascii_of_nat (224 + cp / 4096))
    (String (ascii_of_nat (128 + (cp / 64) mod 64))
       (String (ascii_of_nat (128 + cp mod 64)) EmptyString)).

(* ================================================================== *)
(** ** The drawing surface *)

Section Program.

Context {num : Type} {NumOps : Number num}.
Local Open Scope js_scope.

(** Calls and property writes on a [CanvasRenderingContext2D], in the
    order they are made. *)
Inductive CanvasOp : Type :=
| beginPath
| closePath
| stroke
| fill
| moveTo (x y : num)
| lineTo (x y : num)
| bezierCurveTo (cp1x cp1y cp2x cp2y x y : num)
| arc (x y r startAngle endAngle : num) (counterclockwise : bool)
| clearRect (x y w h : num)
| fillText (text : string) (x y : num)
| set_fillStyle (v : string)
| set_strokeStyle (v : string)
| set_lineWidth (v : num)
| set_font (v : string).

Definition Context2D : Type := list CanvasOp.

Definition ctx_call (op : CanvasOp) : M Context2D unit :=
  fun ctx => (Normal tt, (ctx ++ [op])%list).

Definition Math_PI : num := nlit (3141592653589793 # 1000000000000000).

(* ================================================================== *)
(** ** class Point *)

Record Coord : Type := mkCoord { coord_x : num; coord_y : num }.

Record Point : Type := mkPoint {
  x : num;
  y : num;
  radius : num;
  color : string;
  label : string
}.

Definition DEFAULT_COLOR : string := "#e0e0e0".

(** [new Point(coord, radius, color = Point.DEFAULT_COLOR, label = "")];
    [None] is an argument left out or [undefined]. *)
Definition new_Point (c : Coord) (r : num) (col lab : option string) : Point :=
  {| x := coord_x c;
     y := coord_y c;
     radius := r;
     color := match col with Some s => s | None => DEFAULT_COLOR end;
     label := match lab with Some s => s | None => "" end |}.

Definition set_x (p : Point) (v : num) : Point :=
  {| x := v; y := y p; radius := radius p; color := color p; label := label p |}.
Definition set_y (p : Point) (v : num) : Point :=
  {| x := x p; y := v; radius := radius p; color := color p; label := label p |}.
Definition set_color (p : Point) (v : string) : Point :=
  {| x := x p; y := y p; radius := radius p; color := v; label := label p |}.

Definition contains (this : Point) (qx qy : num) : bool :=
  (qx >=? x this - radius this) &&
  (qx <=? x this + radius this) &&
  (qy >=? y this - radius this) &&
  (qy <=? y this + radius this).

Definition Point_draw (this : Point) : M Context2D unit :=
  ctx_call beginPath ;;
  ctx_call (arc (x this) (y this) (radius this) (nlit 0) (Math_PI * nlit 2) false) ;;
  ctx_call (set_fillStyle (color this)) ;;
  ctx_call fill ;;
  ctx_call closePath ;;
  when_ (negb (String.eqb (label this) ""))
    (ctx_call (set_font "24px sans-serif") ;;
     ctx_call (set_fillStyle "#333") ;;
     ctx_call (fillText (label this) (x this - nlit 16)
                 (y this - radius this * nlit (22 # 10)))).

(* ================================================================== *)
(** ** class DraggablePoint extends Point *)

Record DraggablePoint : Type := mkDraggablePoint {
  point : Point;
  dragging : bool
}.

Definition HOVER_COLOR : string := "#66a".
Definition DRAG_COLOR : string := "blue".

Definition new_DraggablePoint (c : Coord) (r : num) (col lab : option string)
  : DraggablePoint :=
  {| point := new_Point c r col lab; dragging := false |}.

Definition move (this : DraggablePoint) (nx ny : num) : DraggablePoint :=
  {| point := set_y (set_x (point this) nx) ny; dragging := dragging this |}.

Definition hover (this : DraggablePoint) : DraggablePoint :=
  {| point := set_color (point this) HOVER_COLOR; dragging := dragging this |}.

Definition drag (this : DraggablePoint) : DraggablePoint :=
  {| point := set_color (point this) DRAG_COLOR; dragging := true |}.

(** [DraggablePoint.DEFAULT_COLOR] is the static inherited from [Point]. *)
Definition default (this : DraggablePoint) : DraggablePoint :=
  {| point := set_color (point this) DEFAULT_COLOR; dragging := false |}.

(* ================================================================== *)
(** ** class BezierCurve *)

(** [curve_dragging] is the curve's own [dragging] property, named apart
    from the property of the same name of a control point. *)
Record BezierCurve : Type := mkBezierCurve {
  controlPoints : list DraggablePoint;
  interpolationPoints : list Point;
  t : num;
  curve_dragging : bool;
  hovering : bool;
  interpolating : bool;
  paused : bool
}.

Definition curveColor : string := "blue".
Definition curveWidth : num := nlit 5.
Definition controlLineColor : string := "#888".
Definition totalSteps : num := nlit 200.
Definition controlLineWidth : num := nlit 1.

Definition with_controlPoints (this : BezierCurve) (v : list DraggablePoint)
  : BezierCurve :=
  {| controlPoints := v; interpolationPoints := interpolationPoints this;
     t := t this; curve_dragging := curve_dragging this;
     hovering := hovering this; interpolating := interpolating this;
     paused := paused this |}.

Definition with_interpolationPoints (this : BezierCurve) (v : list Point)
  : BezierCurve :=
  {| controlPoints := controlPoints this; interpolationPoints := v;
     t := t this; curve_dragging := curve_dragging this;
     hovering := hovering this; interpolating := interpolating this;
     paused := paused this |}.

Definition with_t (this : BezierCurve) (v : num) : BezierCurve :=
  {| controlPoints := controlPoints this;
     interpolationPoints := interpolationPoints this;
     t := v; curve_dragging := curve_dragging this;
     hovering := hovering this; interpolating := interpolating this;
     paused := paused this |}.

Definition with_curve_dragging (this : BezierCurve) (v : bool) : BezierCurve :=
  {| controlPoints := controlPoints this;
     interpolationPoints := interpolationPoints this;
     t := t this; curve_dragging := v;
     hovering := hovering this; interpolating := interpolating this;
     paused := paused this |}.

Definition with_hovering (this : BezierCurve) (v : bool) : BezierCurve :=
  {| controlPoints := controlPoints this;
     interpolationPoints := interpolationPoints this;
     t := t this; curve_dragging := curve_dragging this;
     hovering := v; interpolating := interpolating this;
     paused := paused this |}.

Definition with_interpolating (this : BezierCurve) (v : bool) : BezierCurve :=
  {| controlPoints := controlPoints this;
     interpolationPoints := interpolationPoints this;
     t := t this; curve_dragging := curve_dragging this;
     hovering := hovering this; interpolating := v;
     paused := paused this |}.

Definition with_paused (this : BezierCurve) (v : bool) : BezierCurve :=
  {| controlPoints := controlPoints this;
     interpolationPoints := interpolationPoints this;
     t := t this; curve_dragging := curve_dragging this;
     hovering := hovering this; interpolating := interpolating this;
     paused := v |}.

(** [this.prop = v] *)
Definition assign {V} (w : BezierCurve -> V -> BezierCurve) (v : V)
  : M BezierCurve unit :=
  fun this => (Normal tt, w this v).

Definition set_controlPoints := assign with_controlPoints.
Definition set_interpolationPoints := assign with_interpolationPoints.
Definition set_t := assign with_t.
Definition set_curve_dragging := assign with_curve_dragging.
Definition set_hovering := assign with_hovering.
Definition set_interpolating := assign with_interpolating.
Definition set_paused := assign with_paused.

Definition get {A} (f : BezierCurve -> A) : M BezierCurve A :=
  fun this => (Normal (f this), this).

(** [this.controlPoints[i]] read for one of its properties: an index past
    the end gives [undefined], and the property read throws. *)
Definition controlPoint (i : nat) : M BezierCurve Point :=
  fun this =>
    match nth_error (controlPoints this) i with
    | Some p => (Normal (point p), this)
    | None => (Throw TypeError, this)
    end.

Definition interpolationPoint (i : nat) : M BezierCurve Point :=
  fun this =>
    match nth_error (interpolationPoints this) i with
    | Some p => (Normal p, this)
    | None => (Throw TypeError, this)
    end.

(** [this.interpolationPoints[i].x = v] and [... .y = v] *)
Definition assign_x (i : nat) (v : num) : M BezierCurve unit :=
  p <- interpolationPoint i ;;
  ps <- get interpolationPoints ;;
  set_interpolationPoints (update i (set_x p v) ps).

Definition assign_y (i : nat) (v : num) : M BezierCurve unit :=
  p <- interpolationPoint i ;;
  ps <- get interpolationPoints ;;
  set_interpolationPoints (update i (set_y p v) ps).

Definition push_controlPoint (p : DraggablePoint) : M BezierCurve unit :=
  ps <- get controlPoints ;; set_controlPoints (ps ++ [p])%list.

Definition push_interpolationPoint (p : Point) : M BezierCurve unit :=
  ps <- get interpolationPoints ;; set_interpolationPoints (ps ++ [p])%list.

(** An element of the constructor's argument: [{coord: {x, y}, label}]. *)
Record PointInput : Type := mkPointInput {
  coord : Coord;
  input_label : option string
}.

Definition loadControlPoints (input : list PointInput) : M BezierCurve unit :=
  set_controlPoints [] ;;
  for_ input (fun p =>
    push_controlPoint
      (new_DraggablePoint (coord p) (nlit 12) (Some DEFAULT_COLOR) (input_label p))).

Definition constructor (input : list PointInput) : M BezierCurve unit :=
  set_controlPoints [] ;;
  loadControlPoints input ;;
  set_interpolationPoints [] ;;
  (* create q points *)
  for_ [0; 1; 2] (fun i =>
    px <- controlPoint i ;;
    py <- controlPoint i ;;
    push_interpolationPoint
      (new_Point (mkCoord (x px) (y py)) (nlit 3) (Some "black")
         (Some ("Q" ++ fromCodePoint (sub0 + i))))) ;;
  (* create r points *)
  for_ [0; 1] (fun i =>
    px <- controlPoint i ;;
    py <- controlPoint i ;;
    push_interpolationPoint
      (new_Point (mkCoord (x px) (y py)) (nlit 3) (Some "black")
         (Some ("R" ++ fromCodePoint (sub0 + i))))) ;;
  (* create B point *)
  px <- interpolationPoint 3 ;;
  py <- interpolationPoint 3 ;;
  push_interpolationPoint
    (new_Point (mkCoord (x px) (y py)) (nlit 3) (Some "black") (Some "B")) ;;
  set_t (nlit 0) ;;
  set_curve_dragging false ;;
  set_hovering false ;;
  set_interpolating false ;;
  set_paused false.

(** The object under construction before any of its properties is set. *)
Definition blank : BezierCurve :=
  {| controlPoints := []; interpolationPoints := []; t := nlit 0;
     curve_dragging := false; hovering := false; interpolating := false;
     paused := false |}.

(** [new BezierCurve(input)] *)
Definition new_BezierCurve (input : list PointInput) : completion BezierCurve :=
  match constructor input blank with
  | (Normal _, this) => Normal this
  | (Throw e, _) => Throw e
  end.

Definition isPaused : M BezierCurve bool := get paused.
Definition pause : M BezierCurve unit := set_paused true.
Definition run : M BezierCurve unit := set_paused false.

(** update Q0 - Q2 *)
Definition interpolate_Q : M BezierCurve unit :=
  for_ [0; 1; 2] (fun i =>
    t0 <- get t ;; a <- controlPoint i ;;
    t1 <- get t ;; b <- controlPoint (i + 1) ;;
    assign_x i ((nlit 1 - t0) * x a + t1 * x b) ;;
    t0 <- get t ;; a <- controlPoint i ;;
    t1 <- get t ;; b <- controlPoint (i + 1) ;;
    assign_y i ((nlit 1 - t0) * y a + t1 * y b)).

(** update R0 - R1 *)
Definition interpolate_R : M BezierCurve unit :=
  for_ [3; 4] (fun i =>
    t0 <- get t ;; a <- interpolationPoint (i - 3) ;;
    t1 <- get t ;; b <- interpolationPoint (i - 2) ;;
    assign_x i ((nlit 1 - t0) * x a + t1 * x b) ;;
    t0 <- get t ;; a <- interpolationPoint (i - 3) ;;
    t1 <- get t ;; b <- interpolationPoint (i - 2) ;;
    assign_y i ((nlit 1 - t0) * y a + t1 * y b)).

(** update B *)
Definition interpolate_B : M BezierCurve unit :=
  t0 <- get t ;; a <- interpolationPoint 3 ;;
  t1 <- get t ;; b <- interpolationPoint 4 ;;
  assign_x 5 ((nlit 1 - t0) * x a + t1 * x b) ;;
  t0 <- get t ;; a <- interpolationPoint 3 ;;
  t1 <- get t ;; b <- interpolationPoint 4 ;;
  assign_y 5 ((nlit 1 - t0) * y a + t1 * y b).

(** update t *)
Definition interpolate_t : M BezierCurve unit :=
  p <- get paused ;;
  when_ (negb p)
    (t0 <- get t ;;
     set_t (t0 + nlit 1 / totalSteps) ;;
     t1 <- get t ;;
     when_ (t1 >? nlit 1) (set_t (nlit 0))).

Definition interpolate : M BezierCurve unit :=
  interpolate_Q ;; interpolate_R ;; interpolate_B ;; interpolate_t.


(** [arr[i]] read for one of its properties, in a body over any state. *)
Definition index {S A} (arr : list A) (i : nat) : M S A :=
  fun s =>
    match nth_error arr i with
    | Some a => (Normal a, s)
    | None => (Throw TypeError, s)
    end.

Definition BezierCurve_draw (this : BezierCurve) : M Context2D unit :=
  (* draw the curve *)
  ctx_call beginPath ;;
  ctx_call (set_strokeStyle curveColor) ;;
  ctx_call (set_lineWidth curveWidth) ;;
  p0 <- index (controlPoints this) 0 ;;
  ctx_call (moveTo (x (point p0)) (y (point p0))) ;;
  p1 <- index (controlPoints this) 1 ;;
  p2 <- index (controlPoints this) 2 ;;
  p3 <- index (controlPoints this) 3 ;;
  ctx_call (bezierCurveTo (x (point p1)) (y (point p1))
              (x (point p2)) (y (point p2)) (x (point p3)) (y (point p3))) ;;
  ctx_call stroke ;;
  (* draw the control lines *)
  ctx_call (set_strokeStyle controlLineColor) ;;
  ctx_call (set_lineWidth controlLineWidth) ;;
  p0 <- index (controlPoints this) 0 ;;
  ctx_call (moveTo (x (point p0)) (y (point p0))) ;;
  p1 <- index (controlPoints this) 1 ;;
  ctx_call (lineTo (x (point p1)) (y (point p1))) ;;
  ctx_call stroke ;;
  p2 <- index (controlPoints this) 2 ;;
  ctx_call (lineTo (x (point p2)) (y (point p2))) ;;
  ctx_call stroke ;;
  p3 <- index (controlPoints this) 3 ;;
  ctx_call (lineTo (x (point p3)) (y (point p3))) ;;
  ctx_call stroke ;;
  ctx_call closePath ;;
  (* draw the control points *)
  for_ (controlPoints this) (fun p => Point_draw (point p)) ;;
  (* draw the interpolation points *)
  when_ (interpolating this)
    (ctx_call beginPath ;;
     ctx_call (set_strokeStyle "magenta") ;;
     ctx_call (set_lineWidth (nlit 2)) ;;
     q0 <- index (interpolationPoints this) 0 ;;
     ctx_call (moveTo (x q0) (y q0)) ;;
     q1 <- index (interpolationPoints this) 1 ;;
     ctx_call (lineTo (x q1) (y q1)) ;;
     ctx_call stroke ;;
     q2 <- index (interpolationPoints this) 2 ;;
     ctx_call (lineTo (x q2) (y q2)) ;;
     ctx_call stroke ;;
     ctx_call closePath ;;
     ctx_call beginPath ;;
     ctx_call (set_strokeStyle "lime") ;;
     r0 <- index (interpolationPoints this) 3 ;;
     ctx_call (moveTo (x r0) (y r0)) ;;
     r1 <- index (interpolationPoints this) 4 ;;
     ctx_call (lineTo (x r1) (y r1)) ;;
     ctx_call stroke ;;
     ctx_call closePath ;;
     for_ (interpolationPoints this) Point_draw).

(* ================================================================== *)
(** ** The page: default scene, pointer handlers, buttons, animation *)

(** The four default control points of a [w] by [h] canvas. *)
Definition pointCoordinates (w h : num) : list PointInput :=
  [ mkPointInput (mkCoord (w / nlit 8) ((h * nlit 5) / nlit 6))
      (Some ("P" ++ fromCodePoint sub0));
    mkPointInput (mkCoord (w / nlit 3) (h / nlit 6))
      (Some ("P" ++ fromCodePoint (sub0 + 1)));
    mkPointInput (mkCoord ((w * nlit 2) / nlit 3) (h / nlit 6))
      (Some ("P" ++ fromCodePoint (sub0 + 2)));
    mkPointInput (mkCoord ((w * nlit 7) / nlit 8) ((h * nlit 5) / nlit 6))
      (Some ("P" ++ fromCodePoint (sub0 + 3))) ].

(** [arr.forEach(callback)] for a callback that updates the element it is
    given and a variable [v] it shares with the next calls; a [return] in
    the callback ends that call only. *)
Fixpoint forEach {A V} (callback : A -> V -> A * V) (arr : list A) (v : V)
  : list A * V :=
  match arr with
  | [] => ([], v)
  | a :: arr' =>
      let (a', v') := callback a v in
      let (arr'', v'') := forEach callback arr' v' in
      (a' :: arr'', v'')
  end.

(** The callbacks of the three pointer listeners; the shared variable is
    [curve.dragging]. *)
Definition pointerdown_callback (clientX clientY : num)
  (p : DraggablePoint) (curve_drag : bool) : DraggablePoint * bool :=
  if contains (point p) clientX clientY then
    if negb curve_drag then (drag p, true) else (p, curve_drag)
  else (p, curve_drag).

Definition pointermove_callback (clientX clientY : num)
  (p : DraggablePoint) (curve_drag : bool) : DraggablePoint * bool :=
  if dragging p then (move p clientX clientY, curve_drag)
  else if negb curve_drag && contains (point p) clientX clientY
       then (hover p, curve_drag)
       else (default p, curve_drag).

Definition pointerup_callback (clientX clientY : num)
  (p : DraggablePoint) (curve_drag : bool) : DraggablePoint * bool :=
  if dragging p then (move (default p) clientX clientY, false)
  else (p, curve_drag).

Definition listener (callback : DraggablePoint -> bool -> DraggablePoint * bool)
  (curve : BezierCurve) : BezierCurve :=
  let (ps, d) := forEach callback (controlPoints curve) (curve_dragging curve) in
  with_curve_dragging (with_controlPoints curve ps) d.

Definition pointerdown (clientX clientY : num) : BezierCurve -> BezierCurve :=
  listener (pointerdown_callback clientX clientY).
Definition pointermove (clientX clientY : num) : BezierCurve -> BezierCurve :=
  listener (pointermove_callback clientX clientY).
Definition pointerup (clientX clientY : num) : BezierCurve -> BezierCurve :=
  listener (pointerup_callback clientX clientY).

(** The click listeners of the two buttons, on the curve. *)
Definition showButton_click : M BezierCurve unit :=
  b <- get interpolating ;; set_interpolating (negb b).

Definition pauseButton_click : M BezierCurve unit :=
  b <- isPaused ;; if b then run else pause.

(** The page as the animation sees it: the curve, the calls made on the
    canvas context so far, the canvas size, and the number of callbacks
    handed to [requestAnimationFrame]. *)
Record World : Type := mkWorld {
  curve : BezierCurve;
  ctx : Context2D;
  canvas_width : num;
  canvas_height : num;
  frameRequests : nat
}.

Definition on_curve {A} (m : M BezierCurve A) : M World A :=
  fun w =>
    let (r, c) := m (curve w) in
    (r, {| curve := c; ctx := ctx w; canvas_width := canvas_width w;
           canvas_height := canvas_height w; frameRequests := frameRequests w |}).

Definition on_ctx {A} (m : M Context2D A) : M World A :=
  fun w =>
    let (r, c) := m (ctx w) in
    (r, {| curve := curve w; ctx := c; canvas_width := canvas_width w;
           canvas_height := canvas_height w; frameRequests := frameRequests w |}).

Definition getW {A} (f : World -> A) : M World A := fun w => (Normal (f w), w).

Definition requestAnimationFrame : M World unit :=
  fun w =>
    (Normal tt,
     {| curve := curve w; ctx := ctx w; canvas_width := canvas_width w;
        canvas_height := canvas_height w; frameRequests := S (frameRequests w) |}).

Definition animate : M World unit :=
  w <- getW canvas_width ;;
  h <- getW canvas_height ;;
  on_ctx (ctx_call (clearRect (nlit 0) (nlit 0) w h)) ;;
  c <- getW curve ;;
  on_ctx (BezierCurve_draw c) ;;
  c <- getW curve ;;
  when_ (interpolating c) (on_curve interpolate) ;;
  requestAnimationFrame.

(** What can happen to the curve after its construction: a call of one of
    its methods, a call of [move] on one of its control points, one of the
    listeners, or an animation frame. *)
Inductive Action : Type :=
| call_interpolate
| call_pause
| call_run
| call_loadControlPoints (input : list PointInput)
| call_move (i : nat) (nx ny : num)
| ev_pointerdown (clientX clientY : num)
| ev_pointermove (clientX clientY : num)
| ev_pointerup (clientX clientY : num)
| ev_showButton
| ev_pauseButton
| ev_frame (canvas : Context2D) (w h : num).

Definition move_controlPoint (i : nat) (nx ny : num) (c : BezierCurve)
  : BezierCurve :=
  match nth_error (controlPoints c) i with
  | Some p => with_controlPoints c (update i (move p nx ny) (controlPoints c))
  | None => c
  end.

(** The curve after an action (as the action left it, when it threw). *)
Definition perform (a : Action) (c : BezierCurve) : BezierCurve :=
  match a with
  | call_interpolate => snd (interpolate c)
  | call_pause => snd (pause c)
  | call_run => snd (run c)
  | call_loadControlPoints input => snd (loadControlPoints input c)
  | call_move i nx ny => move_controlPoint i nx ny c
  | ev_pointerdown ex ey => pointerdown ex ey c
  | ev_pointermove ex ey => pointermove ex ey c
  | ev_pointerup ex ey => pointerup ex ey c
  | ev_showButton => snd (showButton_click c)
  | ev_pauseButton => snd (pauseButton_click c)
  | ev_frame canvas w h => curve (snd (animate (mkWorld c canvas w h 0)))
  end.

(** The states of a curve built by [new BezierCurve(input)] and used. *)
Inductive reachable (input : list PointInput) : BezierCurve -> Prop :=
| reach_new c : new_BezierCurve input = Normal c -> reachable input c
| reach_step c a : reachable input c -> reachable input (perform a c).

End Program.

Arguments CanvasOp : clear implicits.
Arguments Context2D : clear implicits.
Arguments Coord : clear implicits.
Arguments Point : clear implicits.
Arguments DraggablePoint : clear implicits.
Arguments BezierCurve : clear implicits.
Arguments PointInput : clear implicits.
Arguments World : clear implicits.
Arguments Action : clear implicits.

(* ================================================================== *)
(** ** De Casteljau's construction, as the specification words it *)

Section DeCasteljau.

Context {num : Type} {NumOps : Number num}.
Local Open Scope js_scope.

(** [lerp(A,B,t) = (1 - t)*A + t*B] *)
Definition lerp (A B t : num) : num := (nlit 1 - t) * A + t * B.

Definition lerp2 (A B : num * num) (t : num) : num * num :=
  (lerp (fst A) (fst B) t, lerp (snd A) (snd B) t).

Definition position (p : Point num) : num * num := (x p, y p).

(** The six markers Q0, Q1, Q2, R0, R1, B of four points at [t]. *)
Definition de_casteljau (P0 P1 P2 P3 : num * num) (t : num) : list (num * num) :=
  let Q0 := lerp2 P0 P1 t in
  let Q1 := lerp2 P1 P2 t in
  let Q2 := lerp2 P2 P3 t in
  let R0 := lerp2 Q0 Q1 t in
  let R1 := lerp2 Q1 Q2 t in
  let B := lerp2 R0 R1 t in
  [Q0; Q1; Q2; R0; R1; B].

(** The advance of [t] by one step of an unpaused curve. *)
Definition advance (t : num) : num :=
  let t' := t + nlit 1 / totalSteps in
  if t' >? nlit 1 then nlit 0 else t'.

(** A marker moved to a position; its radius, colour and label stay. *)
Definition place (m : Point num) (p : num * num) : Point num :=
  set_y (set_x m (fst p)) (snd p).

Fixpoint place_all (ms : list (Point num)) (ps : list (num * num))
  : list (Point num) :=
  match ms, ps with
  | m :: ms', p :: ps' => place m p :: place_all ms' ps'
  | _, _ => []
  end.

(** What is fixed about a marker. *)
Definition attrs (p : Point num) : num * string * string :=
  (radius p, color p, label p).

(** A curve the construction is defined on: the four control points (at
    least) and the six markers. *)
Definition well_formed (c : BezierCurve num) : Prop :=
  4 <= List.length (controlPoints c) /\ List.length (interpolationPoints c) = 6.

(** [n] calls of [interpolate] in a row. *)
Definition interpolate_times (n : nat) (c : BezierCurve num) : BezierCurve num :=
  Nat.iter n (fun c => snd (interpolate c)) c.

(** The number of control points that are being dragged. *)
Definition dragged (ps : list (DraggablePoint num)) : nat :=
  List.length (filter dragging ps).

End DeCasteljau.

(** Membership in the convex hull of four points, over exact arithmetic. *)
Definition in_hull (P0 P1 P2 P3 m : Q * Q) : Prop :=
  exists w0 w1 w2 w3 : Q,
    (0 <= w0)%Q /\ (0 <= w1)%Q /\ (0 <= w2)%Q /\ (0 <= w3)%Q /\
    (w0 + w1 + w2 + w3 == 1)%Q /\
    (fst m == w0 * fst P0 + w1 * fst P1 + w2 * fst P2 + w3 * fst P3)%Q /\
    (snd m == w0 * snd P0 + w1 * snd P1 + w2 * snd P2 + w3 * snd P3)%Q.

(** The exact value of a position held in binary64 numbers. *)
Definition exact_position (p : float * float) : option (Q * Q) :=
  match float_to_Q (fst p), float_to_Q (snd p) with
  | Some a, Some b => Some (a, b)
  | _, _ => None
  end.

(** Convex-hull membership for finite binary64 positions. *)
Definition in_hull_float (P0 P1 P2 P3 m : float * float) : Prop :=
  match exact_position P0, exact_position P1, exact_position P2,
        exact_position P3, exact_position m with
  | Some p0, Some p1, Some p2, Some p3, Some q => in_hull p0 p1 p2 p3 q
  | _, _, _, _, _ => False
  end.

(** The values [t] takes on an unpaused curve, frame after frame. *)
Definition t_after (k : nat) : float := Nat.iter k advance (nlit 0).

(** The curve of the specification's example, and coordinates for it. *)
Definition at_ (px py : Z) (lab : string) : PointInput float :=
  mkPointInput (mkCoord (float_of_Z px) (float_of_Z py)) (Some lab).

Definition example_input : list (PointInput float) :=
  [at_ 0 0 "P0"; at_ 0 100 "P1"; at_ 100 100 "P2"; at_ 100 0 "P3"].

(** The curve a construction returned (for constructions that return). *)
Definition the_curve {num : Type} {NumOps : Number num}
  (r : completion (BezierCurve num)) : BezierCurve num :=
  match r with
  | Normal c => c
  | Throw _ => blank
  end.

Definition example_curve : BezierCurve float :=
  the_curve (new_BezierCurve example_input).

(* ================================================================== *)
(** ** Vocabulary of the proofs *)

(** Every run of [m] relates the state before to the state after by [R]. *)
Definition preserves {S A} (R : S -> S -> Prop) (m : M S A) : Prop :=
  forall s, R s (snd (m s)).

Section Vocabulary.

Context {num : Type} {NumOps : Number num}.
Local Open Scope js_scope.

(** Everything of a curve except the coordinates of its markers and [t]. *)
Definition frame (c c' : BezierCurve num) : Prop :=
  controlPoints c' = controlPoints c /\
  map attrs (interpolationPoints c') = map attrs (interpolationPoints c) /\
  curve_dragging c' = curve_dragging c /\
  hovering c' = hovering c /\
  interpolating c' = interpolating c /\
  paused c' = paused c.

Definition markers_only (c c' : BezierCurve num) : Prop :=
  frame c c' /\ t c' = t c.

(** The three marker blocks, up to the first throw. *)
Definition interpolate_markers : M (BezierCurve num) unit :=
  interpolate_Q ;; interpolate_R ;; interpolate_B.

(** The markers after the three marker blocks. *)
Definition moved_markers (c : BezierCurve num) : list (Point num) :=
  match controlPoints c with
  | P0 :: P1 :: P2 :: P3 :: _ =>
      place_all (interpolationPoints c)
        (de_casteljau (position (point P0)) (position (point P1))
           (position (point P2)) (position (point P3)) (t c))
  | _ => interpolationPoints c
  end.

(** The curve after one call of [interpolate]. *)
Definition interpolated (c : BezierCurve num) : BezierCurve num :=
  let c' := with_interpolationPoints c (moved_markers c) in
  if paused c then c' else with_t c' (advance (t c)).

(** The control point [loadControlPoints] makes of an input element. *)
Definition loaded (p : PointInput num) : DraggablePoint num :=
  new_DraggablePoint (coord p) (nlit 12) (Some DEFAULT_COLOR) (input_label p).

(** The marker the constructor makes over a control point. *)
Definition marker_at (p : DraggablePoint num) (lab : string) : Point num :=
  new_Point (mkCoord (x (point p)) (y (point p))) (nlit 3) (Some "black")
    (Some lab).

Definition initial_markers (P0 P1 P2 : DraggablePoint num) : list (Point num) :=
  [ marker_at P0 ("Q" ++ fromCodePoint sub0);
    marker_at P1 ("Q" ++ fromCodePoint (sub0 + 1));
    marker_at P2 ("Q" ++ fromCodePoint (sub0 + 2));
    marker_at P0 ("R" ++ fromCodePoint sub0);
    marker_at P1 ("R" ++ fromCodePoint (sub0 + 1));
    marker_at P0 "B" ].

(** A body that returns normally from every state. *)
Definition total {S} (m : M S unit) : Prop :=
  forall s, fst (m s) = Normal tt.

(** A body over the canvas context that only adds calls after those made
    before. *)
Definition appends {A} (m : M (Context2D num) A) : Prop :=
  forall ctx, m ctx = (fst (m []), (ctx ++ snd (m []))%list).

(** The calls [draw] makes for a curve. *)
Definition draw_calls (c : BezierCurve num) : list (CanvasOp num) :=
  snd (BezierCurve_draw c []).

(** The drag state: at most one control point is being dragged, and none
    is while the curve's flag is clear. *)
Definition drag_exclusive (c : BezierCurve num) : Prop :=
  dragged (controlPoints c) <= 1 /\
  (curve_dragging c = false -> dragged (controlPoints c) = 0).

(** The animation tick in the order the specification gives: clear the
    surface, recompute the markers (advancing [t] if not paused), draw;
    the recomputation is not conditional. *)
Definition animate_as_specified : M (World num) unit :=
  w <- getW canvas_width ;;
  h <- getW canvas_height ;;
  on_ctx (ctx_call (clearRect (nlit 0) (nlit 0) w h)) ;;
  on_curve interpolate ;;
  c <- getW curve ;;
  on_ctx (BezierCurve_draw c) ;;
  requestAnimationFrame.

End Vocabulary.

(** The page at its start, on an 800 by 600 canvas. *)
Definition example_world : World float :=
  mkWorld example_curve [] (float_of_Z 800) (float_of_Z 600) 0.

(** Four control points of which the first two overlap. *)
Definition overlapping_input : list (PointInput float) :=
  [at_ 100 100 "P0"; at_ 105 100 "P1"; at_ 300 100 "P2"; at_ 400 300 "P3"].

Definition overlapping_curve : BezierCurve float :=
  the_curve (new_BezierCurve overlapping_input).

(** Four control points on one horizontal line of pixels. *)
Definition level_input : list (PointInput float) :=
  [at_ 0 12 "P0"; at_ 100 12 "P1"; at_ 200 12 "P2"; at_ 300 12 "P3"].

Definition level_curve : BezierCurve float :=
  the_curve (new_BezierCurve level_input).

(** The example curve over the rationals, at t = 1/2. *)
Definition exact_at (px py : Z) (lab : string) : PointInput Q :=
  mkPointInput (mkCoord (inject_Z px) (inject_Z py)) (Some lab).

Definition exact_example_curve : BezierCurve Q :=
  with_t
    (the_curve
       (new_BezierCurve
          [exact_at 0 0 "P0"; exact_at 0 100 "P1"; exact_at 100 100 "P2";
           exact_at 100 0 "P3"]))
    (1 # 2)%Q.

(** The example with a fifth element. *)
Definition five_points : list (PointInput float) :=
  (example_input ++ [at_ 50 50 "P4"])%list.

(* ================================================================== *)
(** ** Vocabulary of the further properties *)

Section Conduct.

Context {num : Type} {NumOps : Number num}.
Local Open Scope js_scope.

(** The curve after a list of actions, first to last. *)
Definition perform_all (l : list (Action num)) (c : BezierCurve num)
  : BezierCurve num :=
  fold_left (fun c a => perform a c) l c.

(** An action that leaves at least four control points: any action but a
    reload from fewer than four elements. *)
Definition keeps_four (a : Action num) : Prop :=
  match a with
  | call_loadControlPoints input => 4 <= List.length input
  | _ => True
  end.

(** How a control point of the page looks: radius 12, one of the three
    colours, and the drag colour exactly while it is being dragged. *)
Definition styled (p : DraggablePoint num) : Prop :=
  radius (point p) = nlit 12 /\
  (dragging p = true <-> color (point p) = DRAG_COLOR) /\
  (color (point p) = DEFAULT_COLOR \/ color (point p) = HOVER_COLOR \/
   color (point p) = DRAG_COLOR).

(** Radius, colour and label of the six markers. *)
Definition marker_styles : list (num * string * string) :=
  [ (nlit 3, "black", "Q" ++ fromCodePoint sub0);
    (nlit 3, "black", "Q" ++ fromCodePoint (sub0 + 1));
    (nlit 3, "black", "Q" ++ fromCodePoint (sub0 + 2));
    (nlit 3, "black", "R" ++ fromCodePoint sub0);
    (nlit 3, "black", "R" ++ fromCodePoint (sub0 + 1));
    (nlit 3, "black", "B") ].

(** The curve's flag is set and no control point is being dragged. *)
Definition drag_stuck (c : BezierCurve num) : Prop :=
  curve_dragging c = true /\ dragged (controlPoints c) = 0.

(** What [pointermove] and [pointerup] make of one control point. *)
Definition after_pointermove (ex ey : num) (flag : bool) (p : DraggablePoint num)
  : DraggablePoint num :=
  fst (pointermove_callback ex ey p flag).

Definition after_pointerup (ex ey : num) (p : DraggablePoint num)
  : DraggablePoint num :=
  if dragging p then move (default p) ex ey else p.


(** [n] frames in a row on the same canvas size. *)
Definition frames (n : nat) (canvas : Context2D num) (w h : num)
  : list (Action num) :=
  repeat (ev_frame canvas w h) n.

End Conduct.

(** The point of the cubic Bezier curve of four points at [t], in
    Bernstein form. *)
Definition bernstein (P0 P1 P2 P3 : Q * Q) (t : Q) : Q * Q :=
  let b0 := ((1 - t) * (1 - t) * (1 - t))%Q in
  let b1 := (3 * t * (1 - t) * (1 - t))%Q in
  let b2 := (3 * t * t * (1 - t))%Q in
  let b3 := (t * t * t)%Q in
  ((b0 * fst P0 + b1 * fst P1 + b2 * fst P2 + b3 * fst P3)%Q,
   (b0 * snd P0 + b1 * snd P1 + b2 * snd P2 + b3 * snd P3)%Q).

(** The example curve with the overlay on, and with three control points. *)
Definition short_input : list (PointInput float) := firstn 3 example_input.

Definition short_curve : BezierCurve float :=
  the_curve (new_BezierCurve short_input).

(* ================================================================== *)
(** ** Reasoning about method bodies *)

Section Bodies.

Context {S : Type}.

Variable R : S -> S -> Prop.
Hypothesis R_refl : forall s, R s s.
Hypothesis R_trans : forall s1 s2 s3, R s1 s2 -> R s2 s3 -> R s1 s3.

Lemma preserves_ret {A} (a : A) : preserves R (ret a).
Proof. intros s. apply R_refl. Qed.

Lemma preserves_bind {A B} (m : M S A) (k : A -> M S B) :
  preserves R m -> (forall a, preserves R (k a)) -> preserves R (bind m k).
Proof.
  intros Hm Hk s. unfold bind.
  specialize (Hm s). destruct (m s) as [[a | e] s']; simpl in *.
  - eapply R_trans; [exact Hm | apply Hk].
  - exact Hm.
Qed.

Lemma preserves_for {A} (l : list A) (body : A -> M S unit) :
  (forall a, preserves R (body a)) -> preserves R (for_ l body).
Proof.
  intros Hb. induction l as [| a l IH]; simpl.
  - apply preserves_ret.
  - apply preserves_bind; [apply Hb | intros _; exact IH].
Qed.

Lemma preserves_when (b : bool) (m : M S unit) :
  preserves R m -> preserves R (when_ b m).
Proof. intros Hm. destruct b; simpl; [exact Hm | apply preserves_ret]. Qed.

Lemma preserves_index {A} (arr : list A) (i : nat) :
  preserves R (index (S := S) arr i).
Proof.
  intros s. unfold index. destruct (nth_error arr i); simpl; apply R_refl.
Qed.

End Bodies.

(* ================================================================== *)
(** ** What [interpolate] touches *)

Section Frame.

Context {num : Type} {NumOps : Number num}.
Local Open Scope js_scope.

Local Abbreviation markers_only := (@markers_only num) (only parsing).
Local Abbreviation frame := (@frame num) (only parsing).

Lemma length_update {A} (i : nat) (v : A) (l : list A) :
  List.length (update i v l) = List.length l.
Proof.
  revert i. induction l as [| a l IH]; intros [| i]; simpl; auto.
Qed.

Lemma map_update {A B} (f : A -> B) (i : nat) (v a : A) (l : list A) :
  nth_error l i = Some a -> f v = f a -> map f (update i v l) = map f l.
Proof.
  revert i. induction l as [| b l IH]; intros [| i] Hn Hf; simpl in *;
    try discriminate.
  - injection Hn as ->. now rewrite Hf.
  - now rewrite (IH i Hn Hf).
Qed.

Lemma frame_refl (c : BezierCurve num) : frame c c.
Proof. repeat split. Qed.

Lemma frame_trans (c1 c2 c3 : BezierCurve num) :
  frame c1 c2 -> frame c2 c3 -> frame c1 c3.
Proof.
  intros (A1 & A2 & A3 & A4 & A5 & A6) (B1 & B2 & B3 & B4 & B5 & B6).
  repeat split; congruence.
Qed.

Lemma markers_only_refl (c : BezierCurve num) : markers_only c c.
Proof. split; [apply frame_refl | reflexivity]. Qed.

Lemma markers_only_trans (c1 c2 c3 : BezierCurve num) :
  markers_only c1 c2 -> markers_only c2 c3 -> markers_only c1 c3.
Proof.
  intros [F1 T1] [F2 T2]. split; [eapply frame_trans; eauto | congruence].
Qed.

Lemma frame_length (c c' : BezierCurve num) :
  frame c c' ->
  List.length (interpolationPoints c') = List.length (interpolationPoints c).
Proof.
  intros (_ & H & _).
  rewrite <- (length_map attrs (interpolationPoints c')), H.
  apply length_map.
Qed.

Lemma get_markers_only {A} (f : BezierCurve num -> A) :
  preserves markers_only (get f).
Proof. intros c. apply markers_only_refl. Qed.

Lemma controlPoint_markers_only i : preserves markers_only (controlPoint i).
Proof.
  intros c. unfold controlPoint.
  destruct (nth_error (controlPoints c) i); apply markers_only_refl.
Qed.

Lemma interpolationPoint_markers_only i :
  preserves markers_only (interpolationPoint i).
Proof.
  intros c. unfold interpolationPoint.
  destruct (nth_error (interpolationPoints c) i); apply markers_only_refl.
Qed.

Lemma assign_x_markers_only i v : preserves markers_only (assign_x i v).
Proof.
  intros c. unfold assign_x, bind, interpolationPoint, get.
  destruct (nth_error (interpolationPoints c) i) as [p |] eqn:E; simpl.
  - repeat split. now apply map_update with (a := p).
  - apply markers_only_refl.
Qed.

Lemma assign_y_markers_only i v : preserves markers_only (assign_y i v).
Proof.
  intros c. unfold assign_y, bind, interpolationPoint, get.
  destruct (nth_error (interpolationPoints c) i) as [p |] eqn:E; simpl.
  - repeat split. now apply map_update with (a := p).
  - apply markers_only_refl.
Qed.

Ltac body_markers_only :=
  repeat first
    [ apply get_markers_only
    | apply controlPoint_markers_only
    | apply interpolationPoint_markers_only
    | apply assign_x_markers_only
    | apply assign_y_markers_only
    | apply (preserves_for _ markers_only_refl markers_only_trans); intro
    | apply (preserves_bind _ markers_only_trans); [| intro] ].

Lemma interpolate_Q_markers_only : preserves markers_only interpolate_Q.
Proof. unfold interpolate_Q. body_markers_only. Qed.

Lemma interpolate_R_markers_only : preserves markers_only interpolate_R.
Proof. unfold interpolate_R. body_markers_only. Qed.

Lemma interpolate_B_markers_only : preserves markers_only interpolate_B.
Proof. unfold interpolate_B. body_markers_only. Qed.

(** The last block of [interpolate] never throws. *)
Lemma interpolate_t_eq (c : BezierCurve num) :
  interpolate_t c =
  (Normal tt, if paused c then c else with_t c (advance (t c))).
Proof.
  unfold interpolate_t, bind, get, when_, advance.
  destruct (paused c); simpl; [reflexivity |].
  unfold set_t, assign, bind. simpl.
  destruct (nlit 1 <? t c + nlit 1 / totalSteps); reflexivity.
Qed.

Lemma interpolate_markers_only : preserves markers_only interpolate_markers.
Proof.
  unfold interpolate_markers.
  apply (preserves_bind _ markers_only_trans);
    [apply interpolate_Q_markers_only | intros _].
  apply (preserves_bind _ markers_only_trans);
    [apply interpolate_R_markers_only | intros _].
  apply interpolate_B_markers_only.
Qed.

Lemma interpolate_split (c : BezierCurve num) :
  interpolate c =
  match interpolate_markers c with
  | (Normal _, c') => interpolate_t c'
  | (Throw e, c') => (Throw e, c')
  end.
Proof.
  unfold interpolate, interpolate_markers, bind.
  destruct (interpolate_Q c) as [[[] | e] c1]; [| reflexivity].
  destruct (interpolate_R c1) as [[[] | e] c2]; [| reflexivity].
  destruct (interpolate_B c2) as [[[] | e] c3]; reflexivity.
Qed.

(** [interpolate] on any curve, well formed or not: the frame stays, and
    [t] stays or advances by one step of an unpaused curve. *)
Lemma interpolate_frame (c : BezierCurve num) : frame c (snd (interpolate c)).
Proof.
  rewrite interpolate_split.
  pose proof (interpolate_markers_only c) as [F T].
  destruct (interpolate_markers c) as [[[] | e] c']; simpl in *; [| exact F].
  rewrite interpolate_t_eq. simpl.
  destruct (paused c'); [exact F |].
  eapply frame_trans; [exact F | repeat split].
Qed.

Lemma interpolate_t_step (c : BezierCurve num) :
  t (snd (interpolate c)) = t c \/
  (paused c = false /\ t (snd (interpolate c)) = advance (t c)).
Proof.
  rewrite interpolate_split.
  pose proof (interpolate_markers_only c) as [F T].
  destruct (interpolate_markers c) as [[[] | e] c']; simpl in *; [| now left].
  rewrite interpolate_t_eq. simpl.
  destruct F as (_ & _ & _ & _ & _ & P).
  destruct (paused c') eqn:E; [now left |].
  right. split; [congruence |]. simpl. now rewrite T.
Qed.

Lemma interpolate_paused_t (c : BezierCurve num) :
  paused c = true -> t (snd (interpolate c)) = t c.
Proof.
  intros P. destruct (interpolate_t_step c) as [H | [H _]];
    [exact H | congruence].
Qed.

End Frame.

(* ================================================================== *)
(** ** [interpolate] on a well-formed curve *)

Section WellFormed.

Context {num : Type} {NumOps : Number num}.
Local Open Scope js_scope.

Lemma well_formed_inv (c : BezierCurve num) :
  well_formed c ->
  exists P0 P1 P2 P3 rest m0 m1 m2 m3 m4 m5,
    controlPoints c = P0 :: P1 :: P2 :: P3 :: rest /\
    interpolationPoints c = [m0; m1; m2; m3; m4; m5].
Proof.
  intros [Hc Hm].
  destruct (controlPoints c) as [| P0 [| P1 [| P2 [| P3 rest]]]];
    simpl in Hc; try lia.
  destruct (interpolationPoints c)
    as [| m0 [| m1 [| m2 [| m3 [| m4 [| m5 [| m6 ms]]]]]]];
    simpl in Hm; try discriminate.
  now exists P0, P1, P2, P3, rest, m0, m1, m2, m3, m4, m5.
Qed.

Lemma interpolate_markers_wf (c : BezierCurve num) :
  well_formed c ->
  interpolate_markers c =
  (Normal tt, with_interpolationPoints c (moved_markers c)).
Proof.
  intros W.
  destruct (well_formed_inv c W)
    as (P0 & P1 & P2 & P3 & rest & m0 & m1 & m2 & m3 & m4 & m5 & Hc & Hm).
  destruct c; simpl in Hc, Hm; subst. reflexivity.
Qed.

Lemma interpolate_wf (c : BezierCurve num) :
  well_formed c -> interpolate c = (Normal tt, interpolated c).
Proof.
  intros W. rewrite interpolate_split, (interpolate_markers_wf c W).
  rewrite interpolate_t_eq. reflexivity.
Qed.

Lemma position_place_all (ms : list (Point num)) (ps : list (num * num)) :
  List.length ms = List.length ps -> map position (place_all ms ps) = ps.
Proof.
  revert ps. induction ms as [| m ms IH]; intros [| [px py] ps] H;
    simpl in *; try discriminate; [reflexivity |].
  unfold position at 1. simpl. f_equal. apply IH. lia.
Qed.

(** The positions of the markers after a call are De Casteljau's. *)
Lemma moved_markers_positions (c : BezierCurve num) P0 P1 P2 P3 rest :
  controlPoints c = P0 :: P1 :: P2 :: P3 :: rest ->
  List.length (interpolationPoints c) = 6 ->
  map position (moved_markers c) =
  de_casteljau (position (point P0)) (position (point P1))
    (position (point P2)) (position (point P3)) (t c).
Proof.
  intros Hc Hm. unfold moved_markers. rewrite Hc.
  apply position_place_all. rewrite Hm. reflexivity.
Qed.

Lemma interpolated_controlPoints (c : BezierCurve num) :
  controlPoints (interpolated c) = controlPoints c.
Proof. unfold interpolated. destruct (paused c); reflexivity. Qed.

Lemma interpolated_paused (c : BezierCurve num) : paused (interpolated c) = paused c.
Proof. unfold interpolated. destruct (paused c) eqn:E; simpl; auto. Qed.

Lemma interpolated_t (c : BezierCurve num) :
  t (interpolated c) = if paused c then t c else advance (t c).
Proof. unfold interpolated. destruct (paused c); reflexivity. Qed.

Lemma interpolated_markers (c : BezierCurve num) :
  interpolationPoints (interpolated c) = moved_markers c.
Proof. unfold interpolated. destruct (paused c); reflexivity. Qed.

Lemma interpolated_wf (c : BezierCurve num) : well_formed c -> well_formed (interpolated c).
Proof.
  intros W. pose proof (interpolate_frame c) as F.
  rewrite (interpolate_wf c W) in F. simpl in F.
  destruct W as [Wc Wm]. split.
  - now rewrite interpolated_controlPoints.
  - now rewrite (frame_length _ _ F).
Qed.

(** Calls in a row on a well-formed curve. *)
Lemma interpolate_times_S n (c : BezierCurve num) :
  interpolate_times (S n) c = snd (interpolate (interpolate_times n c)).
Proof. reflexivity. Qed.

Lemma interpolate_times_wf n (c : BezierCurve num) :
  well_formed c ->
  well_formed (interpolate_times n c) /\
  paused (interpolate_times n c) = paused c /\
  controlPoints (interpolate_times n c) = controlPoints c /\
  t (interpolate_times n c) =
    Nat.iter n (fun v => if paused c then v else advance v) (t c).
Proof.
  intros W. induction n as [| n (IW & IP & IC & IT)].
  - repeat split; auto; apply W.
  - rewrite interpolate_times_S, (interpolate_wf _ IW). simpl.
    split; [now apply interpolated_wf |].
    rewrite interpolated_paused, interpolated_controlPoints, interpolated_t.
    rewrite IP, IT. repeat split; auto.
Qed.

Lemma interpolate_times_normal n (c : BezierCurve num) :
  well_formed c -> fst (interpolate (interpolate_times n c)) = Normal tt.
Proof.
  intros W. destruct (interpolate_times_wf n c W) as [IW _].
  now rewrite (interpolate_wf _ IW).
Qed.

(** While paused, a second call finds nothing to change. *)
Lemma interpolated_twice (c : BezierCurve num) :
  well_formed c -> paused c = true ->
  interpolated (interpolated c) = interpolated c.
Proof.
  intros W P.
  destruct (well_formed_inv c W)
    as (P0 & P1 & P2 & P3 & rest & m0 & m1 & m2 & m3 & m4 & m5 & Hc & Hm).
  destruct c; simpl in Hc, Hm, P; subst. reflexivity.
Qed.

Lemma interpolate_times_paused n (c : BezierCurve num) :
  well_formed c -> paused c = true ->
  interpolate_times (S n) c = interpolated c.
Proof.
  intros W P. induction n as [| n IH].
  - simpl. now rewrite (interpolate_wf c W).
  - rewrite interpolate_times_S, IH.
    rewrite (interpolate_wf _ (interpolated_wf c W)). simpl.
    now apply interpolated_twice.
Qed.

End WellFormed.

(* ================================================================== *)
(** ** Construction and reload *)

Section Construction.

Context {num : Type} {NumOps : Number num}.
Local Open Scope js_scope.

Lemma push_all (input : list (PointInput num)) (c : BezierCurve num) :
  for_ input (fun p => push_controlPoint (loaded p)) c =
  (Normal tt, with_controlPoints c (controlPoints c ++ map loaded input)%list).
Proof.
  revert c. induction input as [| p input IH]; intros c; simpl.
  - rewrite app_nil_r. destruct c; reflexivity.
  - unfold bind at 1. unfold push_controlPoint at 1.
    unfold bind, get, set_controlPoints, assign. rewrite IH. simpl.
    now rewrite <- app_assoc.
Qed.

(** Reload takes a list of any length and never throws. *)
Lemma loadControlPoints_eq (input : list (PointInput num)) (c : BezierCurve num) :
  loadControlPoints input c =
  (Normal tt, with_controlPoints c (map loaded input)).
Proof.
  unfold loadControlPoints, bind, set_controlPoints, assign.
  change (fun p : PointInput num => push_controlPoint
    (new_DraggablePoint (coord p) (nlit 12) (Some DEFAULT_COLOR) (input_label p)))
    with (fun p : PointInput num => push_controlPoint (loaded p)).
  rewrite push_all. reflexivity.
Qed.

(** With three elements or more the constructor returns this curve. *)
Lemma new_BezierCurve_ok (a b d : PointInput num) (rest : list (PointInput num)) :
  new_BezierCurve (a :: b :: d :: rest) =
  Normal {| controlPoints := map loaded (a :: b :: d :: rest);
            interpolationPoints := initial_markers (loaded a) (loaded b) (loaded d);
            t := nlit 0; curve_dragging := false; hovering := false;
            interpolating := false; paused := false |}.
Proof.
  unfold new_BezierCurve, constructor.
  unfold bind at 1. unfold set_controlPoints at 1, assign at 1.
  unfold bind at 1. rewrite loadControlPoints_eq. reflexivity.
Qed.

(** With fewer than three it throws, reading a control point that is not
    there. *)
Lemma new_BezierCurve_throws (input : list (PointInput num)) :
  List.length input < 3 -> new_BezierCurve input = Throw TypeError.
Proof.
  intros H. unfold new_BezierCurve, constructor.
  unfold bind at 1. unfold set_controlPoints at 1, assign at 1.
  unfold bind at 1. rewrite loadControlPoints_eq.
  destruct input as [| a [| b [| d rest]]]; simpl in H; try lia; reflexivity.
Qed.

Lemma new_BezierCurve_inv (input : list (PointInput num)) (c : BezierCurve num) :
  new_BezierCurve input = Normal c ->
  3 <= List.length input /\
  controlPoints c = map loaded input /\
  List.length (interpolationPoints c) = 6 /\
  t c = nlit 0 /\ curve_dragging c = false /\ hovering c = false /\
  interpolating c = false /\ paused c = false.
Proof.
  intros H.
  destruct (Nat.lt_ge_cases (List.length input) 3) as [L | L].
  - rewrite (new_BezierCurve_throws input L) in H. discriminate.
  - destruct input as [| a [| b [| d rest]]]; simpl in L; try lia.
    rewrite new_BezierCurve_ok in H. injection H as <-.
    repeat split; simpl; lia.
Qed.

Lemma loaded_not_dragging (input : list (PointInput num)) :
  dragged (map loaded input) = 0.
Proof. induction input as [| p input IH]; simpl; auto. Qed.

End Construction.

(* ================================================================== *)
(** ** The pointer listeners *)

Section Listeners.

Context {num : Type} {NumOps : Number num}.
Local Open Scope js_scope.

Variables clientX clientY : num.

(** While the curve's flag is set, [pointerdown] changes nothing. *)
Lemma pointerdown_forEach_flag_set (ps : list (DraggablePoint num)) :
  forEach (pointerdown_callback clientX clientY) ps true = (ps, true).
Proof.
  induction ps as [| p ps IH]; simpl; [reflexivity |].
  unfold pointerdown_callback at 1.
  destruct (contains (point p) clientX clientY); simpl; now rewrite IH.
Qed.

(** With the flag clear, the first control point that contains the pointer
    is the one that starts to be dragged; the others are as they were. *)
Lemma pointerdown_forEach_first (ps : list (DraggablePoint num)) i p :
  nth_error ps i = Some p ->
  contains (point p) clientX clientY = true ->
  (forall k q, k < i -> nth_error ps k = Some q ->
               contains (point q) clientX clientY = false) ->
  forEach (pointerdown_callback clientX clientY) ps false =
  (update i (drag p) ps, true).
Proof.
  revert i. induction ps as [| a ps IH]; intros [| i] Hn Hc Hf;
    simpl in Hn; try discriminate.
  - injection Hn as ->. simpl. unfold pointerdown_callback at 1.
    rewrite Hc. simpl. now rewrite pointerdown_forEach_flag_set.
  - simpl. unfold pointerdown_callback at 1.
    rewrite (Hf 0 a (Nat.lt_0_succ i) eq_refl).
    rewrite (IH i Hn Hc); [reflexivity |].
    intros k q Hk Hq. apply (Hf (S k) q); [lia | exact Hq].
Qed.

Lemma pointerdown_forEach_dragged (ps : list (DraggablePoint num)) :
  dragged ps = 0 ->
  let (ps', d') := forEach (pointerdown_callback clientX clientY) ps false in
  dragged ps' <= 1 /\ (d' = false -> dragged ps' = 0).
Proof.
  induction ps as [| a ps IH]; intros H; simpl; [split; auto |].
  unfold dragged in H. simpl in H.
  destruct (dragging a) eqn:Da; [discriminate |].
  fold (dragged ps) in H.
  unfold pointerdown_callback at 1.
  destruct (contains (point a) clientX clientY); simpl.
  - rewrite pointerdown_forEach_flag_set. unfold dragged. simpl.
    fold (dragged ps). rewrite H. split; [lia | discriminate].
  - specialize (IH H).
    destruct (forEach (pointerdown_callback clientX clientY) ps false)
      as [ps' d'].
    unfold dragged. simpl. rewrite Da. exact IH.
Qed.

(** [pointermove] changes no [dragging] property. *)
Lemma pointermove_forEach (ps : list (DraggablePoint num)) (d : bool) :
  let (ps', d') := forEach (pointermove_callback clientX clientY) ps d in
  map dragging ps' = map dragging ps /\ d' = d.
Proof.
  induction ps as [| a ps IH]; simpl; [split; reflexivity |].
  unfold pointermove_callback at 1.
  destruct (forEach (pointermove_callback clientX clientY) ps d)
    as [ps' d'] eqn:E.
  destruct IH as [IH1 IH2].
  destruct (dragging a) eqn:Da; simpl.
  - rewrite E. simpl. rewrite Da, IH1. now split.
  - destruct (negb d && contains (point a) clientX clientY); simpl;
      rewrite E; simpl; rewrite ?Da, IH1; now split.
Qed.

(** After [pointerup] no control point is being dragged, and the curve's
    flag is cleared if one was. *)
Lemma pointerup_forEach (ps : list (DraggablePoint num)) (d : bool) :
  let (ps', d') := forEach (pointerup_callback clientX clientY) ps d in
  dragged ps' = 0 /\ (dragged ps = 0 -> d' = d) /\ (0 < dragged ps -> d' = false).
Proof.
  revert d. induction ps as [| a ps IH]; intros d; simpl.
  - repeat split; auto. unfold dragged. simpl. lia.
  - unfold pointerup_callback at 1. unfold dragged. simpl.
    destruct (dragging a) eqn:Da; simpl.
    + specialize (IH false).
      destruct (forEach (pointerup_callback clientX clientY) ps false)
        as [ps' d'].
      destruct IH as (I1 & I2 & I3). fold (dragged ps) in *. fold (dragged ps').
      repeat split; auto; try lia.
      intros _. destruct (dragged ps) eqn:E; [apply I2; reflexivity | apply I3; lia].
    + specialize (IH d).
      destruct (forEach (pointerup_callback clientX clientY) ps d)
        as [ps' d'].
      simpl. rewrite Da. exact IH.
Qed.

Lemma dragged_ext (ps ps' : list (DraggablePoint num)) :
  map dragging ps' = map dragging ps -> dragged ps' = dragged ps.
Proof.
  revert ps'. induction ps as [| a ps IH]; intros [| a' ps'] H;
    simpl in H; try discriminate; [reflexivity |].
  injection H as Ha Hps. unfold dragged. simpl. rewrite Ha.
  specialize (IH ps' Hps). unfold dragged in IH.
  destruct (dragging a); simpl; now rewrite IH.
Qed.

End Listeners.

(* ================================================================== *)
(** ** Drawing and the animation frame *)

Section Canvas.

Context {num : Type} {NumOps : Number num}.
Local Open Scope js_scope.

Local Abbreviation appends := (@appends num _) (only parsing).

Lemma total_bind {S A} (m : M S A) (k : A -> M S unit) :
  (forall s, exists a, fst (m s) = Normal a) -> (forall a, total (k a)) ->
  total (bind m k).
Proof.
  intros Hm Hk s. unfold bind. destruct (Hm s) as [a Ha].
  destruct (m s) as [[a' | e] s']; simpl in Ha; [apply Hk | discriminate].
Qed.

Lemma total_seq {S} (m k : M S unit) :
  total m -> total k -> total (bind m (fun _ => k)).
Proof.
  intros Hm Hk. apply total_bind; [| intros _; exact Hk].
  intros s. exists tt. apply Hm.
Qed.

Lemma total_for {S A} (l : list A) (body : A -> M S unit) :
  (forall a, total (body a)) -> total (for_ l body).
Proof.
  intros Hb. induction l as [| a l IH]; simpl.
  - intros s. reflexivity.
  - apply total_seq; [apply Hb | exact IH].
Qed.

Lemma total_when {S} (b : bool) (m : M S unit) : total m -> total (when_ b m).
Proof. intros Hm. destruct b; simpl; [exact Hm | intros s; reflexivity]. Qed.

Lemma total_ctx_call (op : CanvasOp num) : total (ctx_call op).
Proof. intros s. reflexivity. Qed.

Lemma total_index_bind {S A} (arr : list A) (i : nat) (a : A)
  (k : A -> M S unit) :
  nth_error arr i = Some a -> total (k a) -> total (bind (index arr i) k).
Proof.
  intros Hn Hk s. unfold bind, index. rewrite Hn. apply Hk.
Qed.

Ltac body_total :=
  repeat lazymatch goal with
    | |- total (ctx_call _) => apply total_ctx_call
    | |- total (when_ _ _) => apply total_when
    | |- total (for_ _ _) => apply total_for; intro
    | |- total (bind (index _ _) _) => eapply total_index_bind; [reflexivity |]
    | |- total (bind _ _) => apply total_seq
    end.

Lemma total_Point_draw (p : Point num) : total (Point_draw p).
Proof.
  unfold Point_draw. body_total.
Qed.

Lemma appends_ret {A} (a : A) : appends (ret a).
Proof. intros ctx. unfold ret. simpl. now rewrite app_nil_r. Qed.

Lemma appends_bind {A B} (m : M (Context2D num) A) (k : A -> M (Context2D num) B) :
  appends m -> (forall a, appends (k a)) -> appends (bind m k).
Proof.
  intros Hm Hk ctx. unfold bind.
  rewrite (Hm ctx). destruct (m []) as [[a | e] o] eqn:E; simpl.
  - rewrite (Hk a (ctx ++ o)%list), (Hk a o). simpl. now rewrite app_assoc.
  - reflexivity.
Qed.

Lemma appends_for {A} (l : list A) (body : A -> M (Context2D num) unit) :
  (forall a, appends (body a)) -> appends (for_ l body).
Proof.
  intros Hb. induction l as [| a l IH]; simpl.
  - apply appends_ret.
  - apply appends_bind; [apply Hb | intros _; exact IH].
Qed.

Lemma appends_when (b : bool) (m : M (Context2D num) unit) :
  appends m -> appends (when_ b m).
Proof. intros Hm. destruct b; simpl; [exact Hm | apply appends_ret]. Qed.

Lemma appends_ctx_call (op : CanvasOp num) : appends (ctx_call op).
Proof. intros ctx. reflexivity. Qed.

Lemma appends_index {A} (arr : list A) (i : nat) :
  appends (index (S := Context2D num) arr i).
Proof.
  intros ctx. unfold index. destruct (nth_error arr i); simpl;
    now rewrite app_nil_r.
Qed.

Ltac body_appends :=
  repeat lazymatch goal with
    | |- appends (ctx_call _) => apply appends_ctx_call
    | |- appends (index _ _) => apply appends_index
    | |- appends (ret _) => apply appends_ret
    | |- appends (when_ _ _) => apply appends_when
    | |- appends (for_ _ _) => apply appends_for; intro
    | |- appends (bind _ _) => apply appends_bind; [| intro]
    end.

Lemma appends_Point_draw (p : Point num) : appends (Point_draw p).
Proof. unfold Point_draw. body_appends. Qed.

Lemma appends_BezierCurve_draw (c : BezierCurve num) : appends (BezierCurve_draw c).
Proof.
  unfold BezierCurve_draw.
  repeat first
    [ lazymatch goal with
      | |- appends (Point_draw _) => apply appends_Point_draw
      end
    | progress body_appends ].
Qed.

Lemma total_BezierCurve_draw (c : BezierCurve num) :
  well_formed c -> total (BezierCurve_draw c).
Proof.
  intros W.
  destruct (well_formed_inv c W)
    as (P0 & P1 & P2 & P3 & rest & m0 & m1 & m2 & m3 & m4 & m5 & Hc & Hm).
  unfold BezierCurve_draw. rewrite Hc, Hm.
  repeat first
    [ lazymatch goal with
      | |- total (Point_draw _) => apply total_Point_draw
      end
    | progress body_total ].
Qed.

Lemma BezierCurve_draw_wf (c : BezierCurve num) (ctx0 : Context2D num) :
  well_formed c ->
  BezierCurve_draw c ctx0 = (Normal tt, (ctx0 ++ draw_calls c)%list).
Proof.
  intros W. rewrite (appends_BezierCurve_draw c ctx0).
  now rewrite (total_BezierCurve_draw c W []).
Qed.

(** The curve after a frame is the curve before, or what [interpolate]
    leaves of it. *)
Lemma animate_curve (w : World num) :
  curve (snd (animate w)) = curve w \/
  (interpolating (curve w) = true /\
   curve (snd (animate w)) = snd (interpolate (curve w))).
Proof.
  unfold animate, bind, getW, on_ctx, on_curve, when_, requestAnimationFrame.
  simpl.
  destruct (BezierCurve_draw (curve w) _) as [[[] | e] ctx']; simpl;
    [| now left].
  destruct (interpolating (curve w)); simpl; [| now left].
  right. split; [reflexivity |].
  destruct (interpolate (curve w)) as [[[] | e] c']; reflexivity.
Qed.

(** A frame on a well-formed curve, step by step. *)
Lemma animate_wf (w : World num) :
  well_formed (curve w) ->
  animate w =
  (Normal tt,
   {| curve := if interpolating (curve w) then interpolated (curve w)
               else curve w;
      ctx := (ctx w ++
              clearRect (nlit 0) (nlit 0) (canvas_width w) (canvas_height w)
              :: draw_calls (curve w))%list;
      canvas_width := canvas_width w;
      canvas_height := canvas_height w;
      frameRequests := S (frameRequests w) |}).
Proof.
  intros W.
  unfold animate, bind, getW, on_ctx, on_curve, when_, requestAnimationFrame.
  simpl. rewrite (BezierCurve_draw_wf _ _ W). simpl.
  rewrite <- app_assoc. simpl.
  destruct (interpolating (curve w)); simpl; [| reflexivity].
  rewrite (interpolate_wf _ W). reflexivity.
Qed.

End Canvas.

(* ================================================================== *)
(** ** Invariants of the reachable states *)

Section Invariants.

Context {num : Type} {NumOps : Number num}.
Local Open Scope js_scope.

(** Only [interpolate] (called or run by a frame) writes [t]. *)
Lemma perform_t (a : Action num) (c : BezierCurve num) :
  t (perform a c) = t c \/ t (perform a c) = advance (t c).
Proof.
  destruct a; simpl.
  - destruct (interpolate_t_step c) as [H | [_ H]]; auto.
  - now left.
  - now left.
  - rewrite loadControlPoints_eq. now left.
  - unfold move_controlPoint. destruct (nth_error (controlPoints c) i); now left.
  - unfold pointerdown, listener. destruct (forEach _ _ _). now left.
  - unfold pointermove, listener. destruct (forEach _ _ _). now left.
  - unfold pointerup, listener. destruct (forEach _ _ _). now left.
  - now left.
  - unfold pauseButton_click, bind, isPaused, get. destruct (paused c); now left.
  - destruct (animate_curve (mkWorld c canvas w h 0)) as [H | [_ H]];
      rewrite H; simpl; [now left |].
    destruct (interpolate_t_step c) as [H' | [_ H']]; auto.
Qed.

Lemma drag_exclusive_frame (c c' : BezierCurve num) :
  frame c c' -> drag_exclusive c -> drag_exclusive c'.
Proof.
  intros (F1 & _ & F3 & _) [D1 D2]. unfold drag_exclusive.
  rewrite F1, F3. now split.
Qed.

Lemma perform_drag_exclusive (a : Action num) (c : BezierCurve num) :
  drag_exclusive c -> drag_exclusive (perform a c).
Proof.
  intros D. destruct a; simpl.
  - apply (drag_exclusive_frame c); [apply interpolate_frame | exact D].
  - exact D.
  - exact D.
  - rewrite loadControlPoints_eq. unfold drag_exclusive. simpl.
    rewrite loaded_not_dragging. split; [lia | reflexivity].
  - unfold move_controlPoint.
    destruct (nth_error (controlPoints c) i) as [p |] eqn:E; [| exact D].
    unfold drag_exclusive. simpl.
    rewrite (dragged_ext (controlPoints c)); [exact D |].
    now apply map_update with (a := p).
  - unfold pointerdown, listener. destruct D as [D1 D2].
    destruct (curve_dragging c) eqn:F.
    + rewrite pointerdown_forEach_flag_set. unfold drag_exclusive. simpl.
      split; [exact D1 | discriminate].
    + pose proof (pointerdown_forEach_dragged clientX clientY
                    (controlPoints c) (D2 eq_refl)) as H.
      destruct (forEach _ _ _) as [ps' d']. exact H.
  - unfold pointermove, listener. destruct D as [D1 D2].
    pose proof (pointermove_forEach clientX clientY (controlPoints c)
                  (curve_dragging c)) as H.
    destruct (forEach _ _ _) as [ps' d']. destruct H as [H1 H2].
    unfold drag_exclusive. simpl.
    rewrite (dragged_ext _ _ H1), H2. now split.
  - unfold pointerup, listener.
    pose proof (pointerup_forEach clientX clientY (controlPoints c)
                  (curve_dragging c)) as H.
    destruct (forEach _ _ _) as [ps' d']. destruct H as (H1 & _).
    unfold drag_exclusive. simpl. rewrite H1. split; [lia | reflexivity].
  - exact D.
  - unfold pauseButton_click, bind, isPaused, get. destruct (paused c); exact D.
  - destruct (animate_curve (mkWorld c canvas w h 0)) as [H | [_ H]];
      rewrite H; simpl; [exact D |].
    apply (drag_exclusive_frame c); [apply interpolate_frame | exact D].
Qed.

Lemma reachable_drag_exclusive (input : list (PointInput num)) (c : BezierCurve num) :
  reachable input c -> drag_exclusive c.
Proof.
  induction 1 as [c H | c a _ IH].
  - destruct (new_BezierCurve_inv input c H) as (_ & Hc & _ & _ & Hd & _).
    unfold drag_exclusive. rewrite Hc, loaded_not_dragging.
    split; [lia | reflexivity].
  - now apply perform_drag_exclusive.
Qed.

End Invariants.

(* ================================================================== *)
(** ** The parameter [t] in binary64 arithmetic *)

Lemma t_after_S (k : nat) : t_after (S k) = advance (t_after k).
Proof. reflexivity. Qed.

(** Two hundred steps of 1/200 from 0 sum to a little more than 1, and the
    advance resets [t]. *)
Lemma t_after_200 : t_after 200 = 0%float.
Proof. vm_compute. reflexivity. Qed.

Lemma t_after_range (k : nat) :
  k < 200 ->
  PrimFloat.leb 0 (t_after k) = true /\ PrimFloat.ltb (t_after k) 1 = true.
Proof.
  intros H.
  assert (A : forallb (fun k => PrimFloat.leb 0 (t_after k) &&
                                PrimFloat.ltb (t_after k) 1) (seq 0 200) = true)
    by (vm_compute; reflexivity).
  rewrite forallb_forall in A. specialize (A k).
  apply andb_true_iff. apply A. apply in_seq. lia.
Qed.

Lemma t_after_positive (k : nat) :
  0 < k < 200 -> PrimFloat.ltb 0 (t_after k) = true.
Proof.
  intros H.
  assert (A : forallb (fun k => PrimFloat.ltb 0 (t_after k)) (seq 1 199) = true)
    by (vm_compute; reflexivity).
  rewrite forallb_forall in A. apply A. apply in_seq. lia.
Qed.

(** [t] of a reachable curve is one of the two hundred values. *)
Lemma reachable_t (input : list (PointInput float)) (c : BezierCurve float) :
  reachable input c -> exists k, k < 200 /\ t c = t_after k.
Proof.
  induction 1 as [c H | c a _ (k & Hk & IH)].
  - destruct (new_BezierCurve_inv input c H) as (_ & _ & _ & Ht & _).
    exists 0. split; [lia | exact Ht].
  - destruct (perform_t a c) as [E | E]; rewrite E.
    + now exists k.
    + rewrite IH, <- t_after_S.
      destruct (Nat.eq_dec (S k) 200) as [K | K].
      * exists 0. split; [lia |]. rewrite K. apply t_after_200.
      * exists (S k). split; [lia | reflexivity].
Qed.

(* ================================================================== *)
(** ** Array updates, and the tick as the specification words it *)

Lemma nth_error_update_same {A} (i : nat) (v a : A) (l : list A) :
  nth_error l i = Some a -> nth_error (update i v l) i = Some v.
Proof.
  revert i. induction l as [| b l IH]; intros [| i] H; simpl in *;
    try discriminate; auto.
Qed.

Lemma nth_error_update_other {A} (i j : nat) (v : A) (l : list A) :
  i <> j -> nth_error (update i v l) j = nth_error l j.
Proof.
  revert i j. induction l as [| b l IH]; intros [| i] [| j] H; simpl;
    try reflexivity; try contradiction.
  apply IH. intros E. apply H. now f_equal.
Qed.

Lemma dragged_update_drag {num : Type} (ps : list (DraggablePoint num)) i p :
  nth_error ps i = Some p -> dragged ps = 0 ->
  dragged (update i (drag p) ps) = 1.
Proof.
  revert i. induction ps as [| a ps IH]; intros [| i] Hn Hd; simpl in Hn;
    try discriminate; unfold dragged in *; simpl in *.
  - destruct (dragging a); [discriminate | simpl in *; now rewrite Hd].
  - destruct (dragging a); [discriminate |]. now apply IH.
Qed.

(* ================================================================== *)
(** ** Properties of the script *)

Local Open Scope js_scope.

(** C1.  On a curve with control points P0..P3 (and the six markers), at
    any [t], [interpolate] returns normally and leaves the markers at the
    positions of De Casteljau's construction: Q[i] = lerp(P[i], P[i+1], t),
    R[i] = lerp(Q[i], Q[i+1], t), B = lerp(R[0], R[1], t), with
    lerp(A,B,t) = (1 - t)*A + t*B on x and on y.  For P0=(0,0), P1=(0,100),
    P2=(100,100), P3=(100,0) at t = 0.5 these are Q0=(0,50), Q1=(50,100),
    Q2=(100,50), R0=(25,75), R1=(75,75), B=(50,75). *)
Theorem interpolate_de_casteljau :
  (forall (c : BezierCurve float) P0 P1 P2 P3 rest,
     controlPoints c = P0 :: P1 :: P2 :: P3 :: rest ->
     List.length (interpolationPoints c) = 6 ->
     fst (interpolate c) = Normal tt /\
     map position (interpolationPoints (snd (interpolate c))) =
     de_casteljau (position (point P0)) (position (point P1))
       (position (point P2)) (position (point P3)) (t c)) /\
  map position
    (interpolationPoints (snd (interpolate (with_t example_curve 0.5%float)))) =
  [ (0, 50); (50, 100); (100, 50); (25, 75); (75, 75); (50, 75) ]%float.
Proof.
  split.
  - intros c P0 P1 P2 P3 rest Hc Hm.
    assert (W : well_formed c) by (split; [rewrite Hc; simpl; lia | exact Hm]).
    rewrite (interpolate_wf c W). simpl. split; [reflexivity |].
    rewrite interpolated_markers.
    now apply moved_markers_positions with (rest := rest).
  - vm_compute. reflexivity.
Qed.

Lemma interpolate_de_casteljau_witness :
  fst (interpolate example_curve) = Normal tt /\
  map position (interpolationPoints (snd (interpolate example_curve))) =
  de_casteljau (0, 0)%float (0, 100)%float (100, 100)%float (100, 0)%float
    0%float.
Proof.
  exact (proj1 interpolate_de_casteljau example_curve
           (loaded (at_ 0 0 "P0")) (loaded (at_ 0 100 "P1"))
           (loaded (at_ 100 100 "P2")) (loaded (at_ 100 0 "P3")) []
           eq_refl eq_refl).
Defined.

(** C7.  [contains(x,y)] is the test of the axis-aligned box
    [cx-r, cx+r] x [cy-r, cy+r]: true if and only if the four comparisons
    hold.  For the control point at (100,100) of radius 12 it is true on
    the edges of the box and false one unit outside: [contains(112,100)] is
    true and [contains(113,100)] is false. *)
Theorem contains_bounding_box :
  (forall (p : Point float) (qx qy : float),
     contains p qx qy = true <->
     (x p - radius p <=? qx) = true /\ (qx <=? x p + radius p) = true /\
     (y p - radius p <=? qy) = true /\ (qy <=? y p + radius p) = true) /\
  (let P1 := point (loaded (at_ 100 100 "P1")) in
   radius P1 = 12%float /\
   contains P1 112 100 = true /\ contains P1 113 100 = false /\
   contains P1 88 100 = true /\ contains P1 87 100 = false /\
   contains P1 100 112 = true /\ contains P1 100 113 = false /\
   contains P1 100 88 = true /\ contains P1 100 87 = false /\
   contains P1 112 112 = true /\ contains P1 88 88 = true)%float.
Proof.
  split.
  - intros p qx qy. unfold contains.
    rewrite !andb_true_iff. tauto.
  - vm_compute. repeat split.
Qed.

(** C10.  [interpolate] writes only the x and y of the markers and [t]:
    from every state, whether the call returns or throws, the control
    points (positions, colours, dragging flags) are the same list, the
    markers keep their number, radius, colour and label, the four flags of
    the curve are unchanged, and [t] is unchanged when the curve is
    paused (when it is not, [t] is unchanged or advanced by one step). *)
Theorem interpolate_frame_effect :
  forall (num : Type) (NumOps : Number num) (c : BezierCurve num),
    let c' := snd (interpolate c) in
    controlPoints c' = controlPoints c /\
    List.length (interpolationPoints c') = List.length (interpolationPoints c) /\
    map radius (interpolationPoints c') = map radius (interpolationPoints c) /\
    map color (interpolationPoints c') = map color (interpolationPoints c) /\
    map label (interpolationPoints c') = map label (interpolationPoints c) /\
    curve_dragging c' = curve_dragging c /\
    hovering c' = hovering c /\
    interpolating c' = interpolating c /\
    paused c' = paused c /\
    (paused c = true -> t c' = t c) /\
    (t c' = t c \/ t c' = advance (t c)).
Proof.
  intros num NumOps c c'.
  pose proof (interpolate_frame c) as F. fold c' in F.
  pose proof (frame_length _ _ F) as L.
  destruct F as (F1 & F2 & F3 & F4 & F5 & F6).
  assert (R : forall A (f : num * string * string -> A),
             map (fun p => f (attrs p)) (interpolationPoints c') =
             map (fun p => f (attrs p)) (interpolationPoints c)).
  { intros A f. rewrite <- !(map_map attrs f). now rewrite F2. }
  repeat split; auto.
  - exact (R _ (fun a => fst (fst a))).
  - exact (R _ (fun a => snd (fst a))).
  - exact (R _ (fun a => snd a)).
  - apply interpolate_paused_t.
  - destruct (interpolate_t_step c) as [H | [_ H]]; auto.
Qed.

(** C3.  From [t] = 0 on an unpaused curve, each of 200 calls of
    [interpolate] returns, [t] is positive after each of the first 199, and
    after the 200th [t] is exactly 0.0 again: the sum of two hundred steps
    exceeds 1 and the advance resets [t] to 0.0. *)
Theorem t_wraps_after_200_calls :
  forall (c : BezierCurve float),
    well_formed c -> t c = 0%float -> paused c = false ->
    t (interpolate_times 200 c) = 0%float /\
    (forall k, k < 200 ->
       fst (interpolate (interpolate_times k c)) = Normal tt) /\
    (forall k, 0 < k < 200 -> (0%float <? t (interpolate_times k c)) = true).
Proof.
  intros c W T P.
  assert (E : forall n, t (interpolate_times n c) = t_after n).
  { intros n. destruct (interpolate_times_wf n c W) as (_ & _ & _ & E).
    rewrite E, P, T. reflexivity. }
  split; [| split].
  - rewrite E. apply t_after_200.
  - intros k _. now apply interpolate_times_normal.
  - intros k Hk. rewrite E. now apply t_after_positive.
Qed.

Lemma t_wraps_after_200_calls_witness :
  t (interpolate_times 200 example_curve) = 0%float /\
  (forall k, k < 200 ->
     fst (interpolate (interpolate_times k example_curve)) = Normal tt) /\
  (forall k, 0 < k < 200 ->
     (0%float <? t (interpolate_times k example_curve)) = true).
Proof.
  apply (t_wraps_after_200_calls example_curve).
  - split; simpl; lia.
  - reflexivity.
  - reflexivity.
Defined.

(** C4.  In every state reachable from the construction of the curve, by
    calls of [interpolate], [pause], [run], by moves of control points, by
    the listeners, the buttons and the frames, 0 <= t < 1; and the value
    the next advance gives is in the same range, the advance resetting [t]
    to 0 where the sum would leave it. *)
Theorem t_in_unit_interval :
  forall (input : list (PointInput float)) (c : BezierCurve float),
    reachable input c ->
    ((nlit 0 <=? t c) = true /\ (t c <? nlit 1) = true) /\
    ((nlit 0 <=? advance (t c)) = true /\ (advance (t c) <? nlit 1) = true).
Proof.
  intros input c H.
  destruct (reachable_t input c H) as (k & Hk & E).
  rewrite E. split; [exact (t_after_range k Hk) |].
  rewrite <- t_after_S.
  destruct (Nat.eq_dec (S k) 200) as [K | K].
  - rewrite K, t_after_200. split; reflexivity.
  - apply t_after_range. lia.
Qed.

Lemma t_in_unit_interval_witness :
  let c := perform call_interpolate (perform ev_showButton example_curve) in
  ((nlit 0 <=? t c) = true /\ (t c <? nlit 1) = true) /\
  ((nlit 0 <=? advance (t c)) = true /\ (advance (t c) <? nlit 1) = true).
Proof.
  assert (N : new_BezierCurve example_input = Normal example_curve)
    by (vm_compute; reflexivity).
  exact (t_in_unit_interval example_input _
           (reach_step _ _ call_interpolate
              (reach_step _ _ ev_showButton (reach_new _ _ N)))).
Defined.

(** C6.  A pointer-down, with the curve's dragging flag clear, at
    coordinates inside the boxes of two (or more) control points starts
    the drag of exactly one of them, the first in the order of the array
    whose [contains] is true: that point gets [drag()], every other point
    is as it was, and the curve's flag becomes true.  While the flag is
    true a pointer-down changes nothing.  In every reachable state at most
    one control point is being dragged. *)
Theorem drag_exclusivity :
  forall (num : Type) (NumOps : Number num),
    (forall (c : BezierCurve num) (ex ey : num) i j p q,
       curve_dragging c = false ->
       nth_error (controlPoints c) i = Some p ->
       nth_error (controlPoints c) j = Some q ->
       i <> j ->
       contains (point p) ex ey = true ->
       contains (point q) ex ey = true ->
       (forall k r, k < i -> nth_error (controlPoints c) k = Some r ->
                    contains (point r) ex ey = false) ->
       controlPoints (pointerdown ex ey c) = update i (drag p) (controlPoints c) /\
       nth_error (controlPoints (pointerdown ex ey c)) i = Some (drag p) /\
       nth_error (controlPoints (pointerdown ex ey c)) j = Some q /\
       curve_dragging (pointerdown ex ey c) = true /\
       (dragged (controlPoints c) = 0 ->
        dragged (controlPoints (pointerdown ex ey c)) = 1)) /\
    (forall (c : BezierCurve num) (ex ey : num),
       curve_dragging c = true -> pointerdown ex ey c = c) /\
    (forall (input : list (PointInput num)) (c : BezierCurve num),
       reachable input c ->
       dragged (controlPoints c) <= 1 /\
       (forall ex ey, dragged (controlPoints (pointerdown ex ey c)) <= 1)).
Proof.
  intros num NumOps. split; [| split].
  - intros c ex ey i j p q F Hi Hj Hij Cp Cq First.
    unfold pointerdown, listener. rewrite F.
    rewrite (pointerdown_forEach_first ex ey _ i p Hi Cp First). simpl.
    split; [reflexivity |]. split; [now apply nth_error_update_same with (a := p) |].
    split; [now rewrite nth_error_update_other |].
    split; [reflexivity |]. intros D. now apply dragged_update_drag.
  - intros c ex ey F. unfold pointerdown, listener. rewrite F.
    rewrite pointerdown_forEach_flag_set. destruct c; simpl in *. now subst.
  - intros input c H. split.
    + apply (reachable_drag_exclusive input c H).
    + intros ex ey.
      apply (reachable_drag_exclusive input
               (perform (ev_pointerdown ex ey) c) (reach_step _ _ _ H)).
Qed.

Lemma drag_exclusivity_witness :
  let c := overlapping_curve in
  let c' := pointerdown (float_of_Z 102) (float_of_Z 100) c in
  controlPoints c' =
    update 0 (drag (loaded (at_ 100 100 "P0"))) (controlPoints c) /\
  nth_error (controlPoints c') 0 = Some (drag (loaded (at_ 100 100 "P0"))) /\
  nth_error (controlPoints c') 1 = Some (loaded (at_ 105 100 "P1")) /\
  curve_dragging c' = true /\
  (dragged (controlPoints c) = 0 -> dragged (controlPoints c') = 1).
Proof.
  intros c c'.
  refine (proj1 (drag_exclusivity float JSNumber) c
            (float_of_Z 102) (float_of_Z 100) 0 1
            (loaded (at_ 100 100 "P0")) (loaded (at_ 105 100 "P1"))
            _ _ _ _ _ _ _).
  - reflexivity.
  - reflexivity.
  - reflexivity.
  - discriminate.
  - vm_compute. reflexivity.
  - vm_compute. reflexivity.
  - intros k r Hk. lia.
Defined.

(** C8, the claim as stated, refuted: a list of five elements is not
    rejected.  The constructor returns a curve of five control points,
    reload of the same list returns, and [interpolate] on that curve
    returns. *)
Lemma five_control_points_accepted :
  List.length five_points <> 4 /\
  exists c : BezierCurve float,
    new_BezierCurve five_points = Normal c /\
    List.length (controlPoints c) = 5 /\
    fst (loadControlPoints five_points c) = Normal tt /\
    fst (interpolate c) = Normal tt.
Proof.
  split; [simpl; lia |].
  exists (the_curve (new_BezierCurve five_points)).
  split; [vm_compute; reflexivity |].
  split; [vm_compute; reflexivity |].
  split; vm_compute; reflexivity.
Qed.

(** C8, amended.  Neither the constructor nor [loadControlPoints] checks
    the number of control points.  [loadControlPoints] returns for a list
    of any length, with one control point per element.  The constructor
    throws a TypeError exactly when the list has fewer than three elements,
    and otherwise returns a curve with one control point per element, six
    markers and [t] = 0.  [interpolate], on a curve with its six markers,
    returns if and only if there are at least four control points, and
    throws a TypeError when there are fewer. *)
Theorem construction_does_not_check_count :
  forall (num : Type) (NumOps : Number num),
    (forall (input : list (PointInput num)) (c : BezierCurve num),
       loadControlPoints input c =
       (Normal tt, with_controlPoints c (map loaded input))) /\
    (forall input : list (PointInput num),
       List.length input < 3 -> new_BezierCurve input = Throw TypeError) /\
    (forall input : list (PointInput num),
       3 <= List.length input ->
       exists c : BezierCurve num,
         new_BezierCurve input = Normal c /\
         controlPoints c = map loaded input /\
         List.length (interpolationPoints c) = 6 /\
         t c = nlit 0) /\
    (forall c : BezierCurve num,
       List.length (interpolationPoints c) = 6 ->
       (fst (interpolate c) = Normal tt <-> 4 <= List.length (controlPoints c)) /\
       (List.length (controlPoints c) < 4 ->
        fst (interpolate c) = Throw TypeError)).
Proof.
  intros num NumOps. split; [| split; [| split]].
  - apply loadControlPoints_eq.
  - apply new_BezierCurve_throws.
  - intros input H.
    destruct input as [| a [| b [| d rest]]]; simpl in H; try lia.
    eexists. split; [apply new_BezierCurve_ok |]. repeat split.
  - intros c Hm.
    assert (Few : List.length (controlPoints c) < 4 ->
                  fst (interpolate c) = Throw TypeError).
    { intros Hc.
      destruct (interpolationPoints c)
        as [| m0 [| m1 [| m2 [| m3 [| m4 [| m5 [| m6 ms]]]]]]] eqn:Em;
        simpl in Hm; try discriminate.
      destruct (controlPoints c) as [| P0 [| P1 [| P2 [| P3 rest]]]] eqn:Ec;
        simpl in Hc; try lia;
        destruct c; simpl in Em, Ec; subst; reflexivity. }
    split; [| exact Few]. split.
    + intros N. destruct (Nat.lt_ge_cases (List.length (controlPoints c)) 4)
        as [L | L]; [| exact L].
      rewrite (Few L) in N. discriminate.
    + intros L. now rewrite (interpolate_wf c (conj L Hm)).
Qed.

Lemma construction_does_not_check_count_witness :
  new_BezierCurve (firstn 2 example_input) = Throw TypeError /\
  (exists c : BezierCurve float,
     new_BezierCurve five_points = Normal c /\
     controlPoints c = map loaded five_points /\
     List.length (interpolationPoints c) = 6 /\
     t c = nlit 0).
Proof.
  split.
  - apply (proj1 (proj2 (construction_does_not_check_count float JSNumber))).
    simpl. lia.
  - apply (proj1 (proj2 (proj2
             (construction_does_not_check_count float JSNumber)))).
    simpl. lia.
Defined.

(** C9, the claim as stated, refuted at the start of the page: the tick of
    the script leaves [t] at 0 (the overlay is off, nothing is recomputed),
    where the tick of the specification advances it. *)
Lemma animate_is_not_as_specified :
  snd (animate example_world) <> snd (animate_as_specified example_world).
Proof.
  intros H.
  apply (f_equal (fun w => PrimFloat.eqb (t (curve w)) 0%float)) in H.
  vm_compute in H. discriminate H.
Qed.

(** C9, amended.  A tick on a well-formed curve clears the surface, then
    draws the curve as it stands, with the markers where the last
    recomputation left them, then recomputes the markers (advancing [t] if
    not paused) only when the overlay is on ([interpolating] is true), then
    asks for the next frame; with the overlay off the curve is unchanged. *)
Theorem animate_clear_draw_then_interpolate :
  forall (num : Type) (NumOps : Number num) (w : World num),
    well_formed (curve w) ->
    animate w =
    (Normal tt,
     {| curve := if interpolating (curve w) then snd (interpolate (curve w))
                 else curve w;
        ctx := (ctx w ++
                clearRect (nlit 0) (nlit 0) (canvas_width w) (canvas_height w)
                :: draw_calls (curve w))%list;
        canvas_width := canvas_width w;
        canvas_height := canvas_height w;
        frameRequests := S (frameRequests w) |}).
Proof.
  intros num NumOps w W. rewrite (animate_wf w W).
  now rewrite (interpolate_wf _ W).
Qed.

Lemma animate_clear_draw_then_interpolate_witness :
  well_formed (curve example_world) /\
  animate example_world =
  (Normal tt,
   {| curve := if interpolating (curve example_world)
               then snd (interpolate (curve example_world))
               else curve example_world;
      ctx := (ctx example_world ++
              clearRect (nlit 0) (nlit 0) (canvas_width example_world)
                (canvas_height example_world)
              :: draw_calls (curve example_world))%list;
      canvas_width := canvas_width example_world;
      canvas_height := canvas_height example_world;
      frameRequests := S (frameRequests example_world) |}).
Proof.
  assert (W : well_formed (curve example_world)) by (split; simpl; lia).
  split; [exact W |].
  exact (animate_clear_draw_then_interpolate float JSNumber example_world W).
Defined.

(** C2, the claim as stated, refuted in the arithmetic of the script.  The
    four control points are on the line y = 12 and the curve has run two
    frames, so [t] is 0.01; the next call puts the marker Q0 at
    y = 11.999999999999998, below that line, hence outside the convex hull
    of the control points: (1 - t)*12 + t*12 is rounded twice. *)
Lemma marker_outside_hull_by_rounding :
  let c := interpolate_times 2 level_curve in
  let Q0 := nth 0 (interpolationPoints (snd (interpolate c))) (mkPoint 0 0 0 "" "")%float in
  (nlit 0 <=? t c) = true /\ (t c <? nlit 1) = true /\
  controlPoints c = map loaded level_input /\
  In Q0 (interpolationPoints (snd (interpolate c))) /\
  ~ in_hull_float (0, 12)%float (100, 12)%float (200, 12)%float (300, 12)%float
      (position Q0).
Proof.
  intros c Q0.
  split; [vm_compute; reflexivity |].
  split; [vm_compute; reflexivity |].
  split; [vm_compute; reflexivity |].
  split; [apply nth_In; vm_compute; lia |].
  unfold in_hull_float.
  repeat match goal with
    | |- context [exact_position ?p] =>
        let v := eval vm_compute in (exact_position p) in
        replace (exact_position p) with v by (vm_compute; reflexivity)
    end.
  intros (w0 & w1 & w2 & w3 & _ & _ & _ & _ & Hs & _ & Hy).
  simpl in Hy. lra.
Qed.

(** C2, amended.  In exact arithmetic (the program over the rationals, no
    rounding), for every t with 0 <= t < 1 and every position of the four
    control points, [interpolate] returns and each of the six markers is a
    convex combination of P0..P3. *)
Theorem markers_in_hull_exact :
  forall (c : BezierCurve Q) P0 P1 P2 P3 rest,
    controlPoints c = P0 :: P1 :: P2 :: P3 :: rest ->
    List.length (interpolationPoints c) = 6 ->
    (0 <= t c)%Q -> (t c < 1)%Q ->
    fst (interpolate c) = Normal tt /\
    Forall (fun m => in_hull (position (point P0)) (position (point P1))
                       (position (point P2)) (position (point P3))
                       (position m))
      (interpolationPoints (snd (interpolate c))).
Proof.
  intros c P0 P1 P2 P3 rest Hc Hm T0 T1.
  assert (W : well_formed c) by (split; [rewrite Hc; simpl; lia | exact Hm]).
  rewrite (interpolate_wf c W). simpl. split; [reflexivity |].
  rewrite interpolated_markers.
  apply (proj1 (Forall_map position
           (in_hull (position (point P0)) (position (point P1))
              (position (point P2)) (position (point P3))) (moved_markers c))).
  rewrite (moved_markers_positions c P0 P1 P2 P3 rest Hc Hm).
  set (a := t c) in *.
  assert (A0 : (0 <= 1 - a)%Q) by lra.
  assert (A1 : (0 <= a * a)%Q) by (apply Qmult_le_0_compat; assumption).
  assert (A2 : (0 <= (1 - a) * (1 - a))%Q) by (apply Qmult_le_0_compat; assumption).
  assert (A3 : (0 <= a * (1 - a))%Q) by (apply Qmult_le_0_compat; assumption).
  assert (A4 : (0 <= a * a * a)%Q) by (apply Qmult_le_0_compat; assumption).
  assert (A5 : (0 <= (1 - a) * (1 - a) * (1 - a))%Q)
    by (apply Qmult_le_0_compat; assumption).
  assert (A6 : (0 <= a * (1 - a) * (1 - a))%Q)
    by (apply Qmult_le_0_compat; assumption).
  assert (A7 : (0 <= a * a * (1 - a))%Q)
    by (apply Qmult_le_0_compat; assumption).
  unfold de_casteljau, in_hull, lerp2, lerp, position. simpl.
  repeat constructor.
  - exists (1 - a)%Q, a, 0%Q, 0%Q.
    repeat split; try lra; cbn [fst snd]; ring.
  - exists 0%Q, (1 - a)%Q, a, 0%Q.
    repeat split; try lra; cbn [fst snd]; ring.
  - exists 0%Q, 0%Q, (1 - a)%Q, a.
    repeat split; try lra; cbn [fst snd]; ring.
  - exists ((1 - a) * (1 - a))%Q, (2 * (a * (1 - a)))%Q, (a * a)%Q, 0%Q.
    repeat split; try lra; cbn [fst snd]; ring.
  - exists 0%Q, ((1 - a) * (1 - a))%Q, (2 * (a * (1 - a)))%Q, (a * a)%Q.
    repeat split; try lra; cbn [fst snd]; ring.
  - exists ((1 - a) * (1 - a) * (1 - a))%Q, (3 * (a * (1 - a) * (1 - a)))%Q,
      (3 * (a * a * (1 - a)))%Q, (a * a * a)%Q.
    repeat split; try lra; cbn [fst snd]; ring.
Qed.

Lemma markers_in_hull_exact_witness :
  fst (interpolate exact_example_curve) = Normal tt /\
  Forall (fun m => in_hull (0 # 1, 0 # 1)%Q (0 # 1, 100 # 1)%Q
                     (100 # 1, 100 # 1)%Q (100 # 1, 0 # 1)%Q (position m))
    (interpolationPoints (snd (interpolate exact_example_curve))).
Proof.
  apply (markers_in_hull_exact exact_example_curve
           (loaded (exact_at 0 0 "P0")) (loaded (exact_at 0 100 "P1"))
           (loaded (exact_at 100 100 "P2")) (loaded (exact_at 100 0 "P3")) []).
  - reflexivity.
  - reflexivity.
  - unfold Qle. simpl. lia.
  - unfold Qlt. simpl. lia.
Defined.

(** C5, the claim as stated, refuted at the start of a paused curve.  The
    curve is paused at t = 0 and [interpolate] has run; the control point
    P3 is then moved from (100,0) to (300,200) and [interpolate] runs
    again: the six markers are where they were, since at t = 0 no marker
    depends on P3. *)
Lemma paused_move_leaves_markers :
  let c1 := snd (interpolate (snd (pause example_curve))) in
  let moved := move_controlPoint 3 (float_of_Z 300) (float_of_Z 200) c1 in
  let c2 := snd (interpolate moved) in
  paused c1 = true /\
  map (fun p => position (point p)) (controlPoints c1) =
    [ (0, 0); (0, 100); (100, 100); (100, 0) ]%float /\
  map (fun p => position (point p)) (controlPoints moved) =
    [ (0, 0); (0, 100); (100, 100); (300, 200) ]%float /\
  fst (interpolate moved) = Normal tt /\
  interpolationPoints c2 = interpolationPoints c1 /\
  t c2 = t c1.
Proof.
  intros c1 moved c2.
  split; [vm_compute; reflexivity |].
  split; [vm_compute; reflexivity |].
  split; [vm_compute; reflexivity |].
  split; [vm_compute; reflexivity |].
  split; vm_compute; reflexivity.
Qed.

(** At the same state a move of P1 does show in the markers. *)
Example paused_move_of_P1_moves_Q1 :
  let c1 := snd (interpolate (snd (pause example_curve))) in
  let moved := move_controlPoint 1 (float_of_Z 300) (float_of_Z 200) c1 in
  map position (interpolationPoints c1) =
    [ (0, 0); (0, 100); (100, 100); (0, 0); (0, 100); (0, 0) ]%float /\
  map position (interpolationPoints (snd (interpolate moved))) =
    [ (0, 0); (300, 200); (100, 100); (0, 0); (300, 200); (0, 0) ]%float.
Proof. intros c1 moved. split; vm_compute; reflexivity. Qed.

Lemma interpolate_times_paused_flag {num : Type} {NumOps : Number num}
  (n : nat) (c : BezierCurve num) :
  paused (interpolate_times n c) = paused c.
Proof.
  induction n as [| n IH]; [reflexivity |].
  rewrite interpolate_times_S.
  destruct (interpolate_frame (interpolate_times n c)) as (_ & _ & _ & _ & _ & P).
  now rewrite P.
Qed.

(** C5, amended.  While [paused] is true, any number of calls of
    [interpolate] leaves [t] unchanged (in every state); on a well-formed
    curve whose control points stay where they are, the markers after any
    further call are those after the first; and when a control point is
    moved between two such calls, the next call returns, [t] is still the
    frozen value, and the markers are recomputed from the moved control
    points at that [t] (they are De Casteljau's points of the new
    positions, which may or may not differ from the old ones). *)
Theorem pause_law :
  forall (num : Type) (NumOps : Number num) (c : BezierCurve num),
    paused c = true ->
    (forall n, t (interpolate_times n c) = t c) /\
    (well_formed c ->
     forall n,
       interpolationPoints (interpolate_times (S n) c) =
       interpolationPoints (interpolate_times 1 c)) /\
    (well_formed c ->
     forall n i nx ny P0 P1 P2 P3 rest,
       controlPoints (move_controlPoint i nx ny (interpolate_times (S n) c)) =
       P0 :: P1 :: P2 :: P3 :: rest ->
       fst (interpolate (move_controlPoint i nx ny (interpolate_times (S n) c)))
       = Normal tt /\
       t (snd (interpolate
                 (move_controlPoint i nx ny (interpolate_times (S n) c)))) = t c /\
       map position
         (interpolationPoints
            (snd (interpolate
                    (move_controlPoint i nx ny (interpolate_times (S n) c))))) =
       de_casteljau (position (point P0)) (position (point P1))
         (position (point P2)) (position (point P3)) (t c)).
Proof.
  intros num NumOps c P.
  assert (T : forall n, t (interpolate_times n c) = t c).
  { induction n as [| n IH]; [reflexivity |].
    rewrite interpolate_times_S, interpolate_paused_t; [exact IH |].
    now rewrite interpolate_times_paused_flag. }
  split; [exact T |]. split.
  - intros W n. now rewrite !interpolate_times_paused.
  - intros W n i nx ny P0 P1 P2 P3 rest Hc.
    set (c1 := interpolate_times (S n) c) in *.
    set (moved := move_controlPoint i nx ny c1) in *.
    destruct (interpolate_times_wf (S n) c W) as ([W1 W2] & _).
    fold c1 in W1, W2.
    assert (Mm : interpolationPoints moved = interpolationPoints c1).
    { unfold moved, move_controlPoint.
      destruct (nth_error (controlPoints c1) i); reflexivity. }
    assert (Mt : t moved = t c).
    { unfold moved, move_controlPoint.
      destruct (nth_error (controlPoints c1) i); simpl; apply (T (S n)). }
    assert (Mp : paused moved = true).
    { unfold moved, move_controlPoint.
      destruct (nth_error (controlPoints c1) i); simpl;
        unfold c1; now rewrite interpolate_times_paused_flag. }
    assert (Wm : well_formed moved).
    { split; [rewrite Hc; simpl; lia | now rewrite Mm]. }
    rewrite (interpolate_wf moved Wm). simpl.
    split; [reflexivity |]. split.
    + now rewrite interpolated_t, Mp.
    + rewrite interpolated_markers.
      rewrite (moved_markers_positions moved P0 P1 P2 P3 rest Hc (proj2 Wm)).
      now rewrite Mt.
Qed.

Lemma pause_law_witness :
  paused (snd (pause example_curve)) = true /\
  (forall n,
     t (interpolate_times n (snd (pause example_curve))) =
     t (snd (pause example_curve))).
Proof.
  split; [reflexivity |].
  exact (proj1 (pause_law float JSNumber (snd (pause example_curve)) eq_refl)).
Defined.

(* ================================================================== *)
(** ** Further properties: the listeners in closed form *)

Section ListenersClosed.

Context {num : Type} {NumOps : Number num}.
Local Open Scope js_scope.

Lemma forEach_length {A V} (cb : A -> V -> A * V) (arr : list A) (v : V) :
  List.length (fst (forEach cb arr v)) = List.length arr.
Proof.
  revert v. induction arr as [| a arr IH]; intros v; simpl; [reflexivity |].
  destruct (cb a v) as [a' v']. specialize (IH v').
  destruct (forEach cb arr v') as [arr' v'']. simpl in *. now rewrite IH.
Qed.

Lemma forEach_Forall {A V} (P : A -> Prop) (cb : A -> V -> A * V)
  (arr : list A) (v : V) :
  (forall a w, P a -> P (fst (cb a w))) ->
  Forall P arr -> Forall P (fst (forEach cb arr v)).
Proof.
  intros Hcb. revert v. induction arr as [| a arr IH]; intros v H; simpl;
    [constructor |].
  inversion H as [| ? ? Ha Harr]; subst.
  pose proof (Hcb a v Ha) as Ha'. destruct (cb a v) as [a' v'].
  specialize (IH v' Harr). destruct (forEach cb arr v') as [arr' v''].
  simpl in *. now constructor.
Qed.

(** [pointermove] treats each control point on its own: the flag it reads
    is the one the listener started with. *)
Lemma pointermove_forEach_map (ex ey : num) (ps : list (DraggablePoint num))
  (d : bool) :
  forEach (pointermove_callback ex ey) ps d =
  (map (after_pointermove ex ey d) ps, d).
Proof.
  assert (E : forall a, pointermove_callback ex ey a d =
                        (after_pointermove ex ey d a, d)).
  { intros a. unfold after_pointermove, pointermove_callback.
    destruct (dragging a); [reflexivity |].
    destruct (negb d && contains (point a) ex ey); reflexivity. }
  induction ps as [| a ps IH]; simpl; [reflexivity |].
  now rewrite E, IH.
Qed.

Lemma pointerup_forEach_map (ex ey : num) (ps : list (DraggablePoint num))
  (d : bool) :
  forEach (pointerup_callback ex ey) ps d =
  (map (after_pointerup ex ey) ps, if existsb dragging ps then false else d).
Proof.
  revert d. induction ps as [| a ps IH]; intros d; simpl; [reflexivity |].
  unfold pointerup_callback at 1. unfold after_pointerup at 1.
  destruct (dragging a); simpl; rewrite IH; [| reflexivity].
  destruct (existsb dragging ps); reflexivity.
Qed.

Lemma dragged_none (ps : list (DraggablePoint num)) :
  dragged ps = 0 <-> Forall (fun p => dragging p = false) ps.
Proof.
  unfold dragged. induction ps as [| a ps IH]; simpl.
  - split; auto.
  - destruct (dragging a) eqn:Da; simpl.
    + split; [discriminate |]. intros H. inversion H; congruence.
    + rewrite IH. split; intros H; [now constructor | now inversion H].
Qed.

Lemma existsb_none (ps : list (DraggablePoint num)) :
  dragged ps = 0 -> existsb dragging ps = false.
Proof.
  rewrite dragged_none. induction 1 as [| a ps Ha _ IH]; simpl;
    [reflexivity | now rewrite Ha, IH].
Qed.

Lemma update_map {A B} (f : A -> B) (i : nat) (v : A) (l : list A) :
  map f (update i v l) = update i (f v) (map f l).
Proof.
  revert i. induction l as [| a l IH]; intros [| i]; simpl; auto.
  now rewrite IH.
Qed.

Lemma map_same_on {A B} (f g : A -> B) (P : A -> Prop) (l : list A) :
  (forall a, P a -> f a = g a) -> Forall P l -> map f l = map g l.
Proof.
  intros H. induction 1 as [| a l Ha _ IH]; simpl; [reflexivity |].
  now rewrite (H a Ha), IH.
Qed.

Lemma map_id_on {A} (f : A -> A) (P : A -> Prop) (l : list A) :
  (forall a, P a -> f a = a) -> Forall P l -> map f l = l.
Proof.
  intros H. induction 1 as [| a l Ha _ IH]; simpl; [reflexivity |].
  now rewrite (H a Ha), IH.
Qed.

Lemma existsb_update (i : nat) (v a : DraggablePoint num)
  (l : list (DraggablePoint num)) :
  nth_error l i = Some a -> dragging v = true ->
  existsb dragging (update i v l) = true.
Proof.
  revert i. induction l as [| b l IH]; intros [| i] Hn Hv; simpl in *;
    try discriminate.
  - now rewrite Hv.
  - rewrite (IH i Hn Hv). apply orb_true_r.
Qed.

Lemma Forall_update {A} (P : A -> Prop) (i : nat) (v : A) (l : list A) :
  P v -> Forall P l -> Forall P (update i v l).
Proof.
  intros Hv. revert i. induction l as [| a l IH]; intros [| i] H; simpl;
    inversion H; subst; constructor; auto.
Qed.

(** With the flag clear and no control point under the pointer,
    [pointerdown] finds nothing to do. *)
Lemma pointerdown_forEach_miss (ex ey : num) (ps : list (DraggablePoint num)) :
  Forall (fun q => contains (point q) ex ey = false) ps ->
  forEach (pointerdown_callback ex ey) ps false = (ps, false).
Proof.
  induction 1 as [| a ps Ha _ IH]; simpl; [reflexivity |].
  unfold pointerdown_callback at 1. now rewrite Ha, IH.
Qed.

End ListenersClosed.

(* ================================================================== *)
(** ** Further properties: what the curve keeps through every action *)

Section Kept.

Context {num : Type} {NumOps : Number num}.
Local Open Scope js_scope.

Lemma listener_facts (cb : DraggablePoint num -> bool -> DraggablePoint num * bool)
  (c : BezierCurve num) :
  controlPoints (listener cb c) =
    fst (forEach cb (controlPoints c) (curve_dragging c)) /\
  curve_dragging (listener cb c) =
    snd (forEach cb (controlPoints c) (curve_dragging c)) /\
  interpolationPoints (listener cb c) = interpolationPoints c /\
  t (listener cb c) = t c /\ hovering (listener cb c) = hovering c /\
  interpolating (listener cb c) = interpolating c /\
  paused (listener cb c) = paused c.
Proof.
  unfold listener. destruct (forEach _ _ _) as [ps d]. repeat split.
Qed.

Lemma perform_well_formed (a : Action num) (c : BezierCurve num) :
  keeps_four a -> well_formed c -> well_formed (perform a c).
Proof.
  intros K W. pose proof W as [Wc Wm].
  destruct a; simpl in *.
  - rewrite (interpolate_wf c W). simpl. now apply interpolated_wf.
  - exact W.
  - exact W.
  - rewrite loadControlPoints_eq. split; simpl; [now rewrite length_map | exact Wm].
  - unfold move_controlPoint.
    destruct (nth_error (controlPoints c) i); [| exact W].
    split; simpl; [now rewrite length_update | exact Wm].
  - destruct (listener_facts (pointerdown_callback clientX clientY) c)
      as (E1 & _ & E2 & _).
    split; unfold pointerdown; [rewrite E1, forEach_length | rewrite E2]; auto.
  - destruct (listener_facts (pointermove_callback clientX clientY) c)
      as (E1 & _ & E2 & _).
    split; unfold pointermove; [rewrite E1, forEach_length | rewrite E2]; auto.
  - destruct (listener_facts (pointerup_callback clientX clientY) c)
      as (E1 & _ & E2 & _).
    split; unfold pointerup; [rewrite E1, forEach_length | rewrite E2]; auto.
  - exact W.
  - unfold pauseButton_click, bind, isPaused, get. destruct (paused c); exact W.
  - destruct (animate_curve (mkWorld c canvas w h 0)) as [H | [_ H]];
      rewrite H; simpl; [exact W |].
    rewrite (interpolate_wf c W). simpl. now apply interpolated_wf.
Qed.

Lemma perform_all_well_formed (l : list (Action num)) (c : BezierCurve num) :
  Forall keeps_four l -> well_formed c -> well_formed (perform_all l c).
Proof.
  intros H. revert c. induction H as [| a l Ha _ IH]; intros c W; simpl;
    [exact W |].
  apply IH. now apply perform_well_formed.
Qed.

Lemma perform_attrs (a : Action num) (c : BezierCurve num) :
  map attrs (interpolationPoints (perform a c)) =
  map attrs (interpolationPoints c).
Proof.
  destruct a; simpl; try reflexivity.
  - now destruct (interpolate_frame c) as (_ & F & _).
  - now rewrite loadControlPoints_eq.
  - unfold move_controlPoint.
    now destruct (nth_error (controlPoints c) i).
  - unfold pointerdown.
    destruct (listener_facts (pointerdown_callback clientX clientY) c)
      as (_ & _ & E & _). now rewrite E.
  - unfold pointermove.
    destruct (listener_facts (pointermove_callback clientX clientY) c)
      as (_ & _ & E & _). now rewrite E.
  - unfold pointerup.
    destruct (listener_facts (pointerup_callback clientX clientY) c)
      as (_ & _ & E & _). now rewrite E.
  - unfold pauseButton_click, bind, isPaused, get. now destruct (paused c).
  - destruct (animate_curve (mkWorld c canvas w h 0)) as [H | [_ H]];
      rewrite H; simpl; [reflexivity |].
    now destruct (interpolate_frame c) as (_ & F & _).
Qed.

Lemma styled_loaded (p : PointInput num) : styled (loaded p).
Proof.
  unfold styled, loaded. simpl. split; [reflexivity |]. split; [| now left].
  split; discriminate.
Qed.

Lemma styled_drag (p : DraggablePoint num) : styled p -> styled (drag p).
Proof.
  intros (R & _ & _). unfold styled. simpl. split; [exact R |].
  split; [tauto | now right; right].
Qed.

Lemma styled_default (p : DraggablePoint num) : styled p -> styled (default p).
Proof.
  intros (R & _ & _). unfold styled. simpl. split; [exact R |].
  split; [| now left]. split; discriminate.
Qed.

Lemma styled_hover (p : DraggablePoint num) :
  dragging p = false -> styled p -> styled (hover p).
Proof.
  intros D (R & _ & _). unfold styled. simpl. split; [exact R |].
  split; [| now right; left]. rewrite D. split; discriminate.
Qed.

Lemma styled_move (p : DraggablePoint num) (nx ny : num) :
  styled p -> styled (move p nx ny).
Proof. intros S. exact S. Qed.

Lemma perform_styled (a : Action num) (c : BezierCurve num) :
  Forall styled (controlPoints c) ->
  Forall styled (controlPoints (perform a c)).
Proof.
  intros S. destruct a; simpl; try exact S.
  - now destruct (interpolate_frame c) as (-> & _).
  - rewrite loadControlPoints_eq. simpl.
    apply Forall_forall. intros p Hp. apply in_map_iff in Hp.
    destruct Hp as (q & <- & _). apply styled_loaded.
  - unfold move_controlPoint.
    destruct (nth_error (controlPoints c) i) as [p |] eqn:E; [| exact S].
    simpl. apply Forall_update; [| exact S].
    apply styled_move.
    rewrite Forall_forall in S. apply S. eapply nth_error_In, E.
  - unfold pointerdown.
    destruct (listener_facts (pointerdown_callback clientX clientY) c)
      as (-> & _).
    apply forEach_Forall; [| exact S].
    intros p d Sp. unfold pointerdown_callback.
    destruct (contains (point p) clientX clientY); [| exact Sp].
    destruct (negb d); [now apply styled_drag | exact Sp].
  - unfold pointermove.
    destruct (listener_facts (pointermove_callback clientX clientY) c)
      as (-> & _).
    apply forEach_Forall; [| exact S].
    intros p d Sp. unfold pointermove_callback.
    destruct (dragging p) eqn:D; [now apply styled_move |].
    destruct (negb d && contains (point p) clientX clientY);
      [now apply styled_hover | now apply styled_default].
  - unfold pointerup.
    destruct (listener_facts (pointerup_callback clientX clientY) c)
      as (-> & _).
    apply forEach_Forall; [| exact S].
    intros p d Sp. unfold pointerup_callback.
    destruct (dragging p); [| exact Sp].
    now apply styled_move, styled_default.
  - unfold pauseButton_click, bind, isPaused, get. now destruct (paused c).
  - destruct (animate_curve (mkWorld c canvas w h 0)) as [H | [_ H]];
      rewrite H; simpl; [exact S |].
    now destruct (interpolate_frame c) as (-> & _).
Qed.

Lemma perform_drag_stuck (a : Action num) (c : BezierCurve num) :
  drag_stuck c -> drag_stuck (perform a c).
Proof.
  intros [F D]. unfold drag_stuck. destruct a; simpl; try (now split).
  - destruct (interpolate_frame c) as (-> & _ & -> & _). now split.
  - rewrite loadControlPoints_eq. simpl. split; [exact F |].
    apply loaded_not_dragging.
  - unfold move_controlPoint.
    destruct (nth_error (controlPoints c) i) as [p |] eqn:E; [| now split].
    simpl. split; [exact F |].
    rewrite (dragged_ext (controlPoints c)); [exact D |].
    now apply map_update with (a := p).
  - unfold pointerdown, listener. rewrite F, pointerdown_forEach_flag_set.
    now split.
  - unfold pointermove, listener. rewrite pointermove_forEach_map. simpl.
    split; [exact F |].
    rewrite (dragged_ext (controlPoints c)); [exact D |].
    rewrite map_map. apply map_ext. intros p.
    unfold after_pointermove, pointermove_callback.
    destruct (dragging p) eqn:Dp; [simpl; exact Dp |].
    destruct (negb (curve_dragging c) && contains (point p) clientX clientY);
      simpl; congruence.
  - unfold pointerup, listener. rewrite pointerup_forEach_map.
    rewrite (existsb_none _ D). simpl. split; [exact F |].
    rewrite (map_id_on (after_pointerup clientX clientY)
               (fun p => dragging p = false)); [exact D | |].
    + intros p Hp. unfold after_pointerup. now rewrite Hp.
    + now apply dragged_none.
  - unfold pauseButton_click, bind, isPaused, get. destruct (paused c); now split.
  - destruct (animate_curve (mkWorld c canvas w h 0)) as [H | [_ H]];
      rewrite H; simpl; [now split |].
    destruct (interpolate_frame c) as (-> & _ & -> & _). now split.
Qed.

End Kept.

(* ================================================================== *)
(** ** Further properties of the script *)

(** X1.  A curve built from four elements or more, and used by any list
    of actions none of which reloads fewer than four control points, is
    well formed; on it [interpolate] returns, and a frame returns and asks
    for exactly one further frame: the page does not throw and the
    animation goes on. *)
Theorem page_never_throws :
  forall (num : Type) (NumOps : Number num)
         (input : list (PointInput num)) (l : list (Action num)),
    4 <= List.length input ->
    Forall keeps_four l ->
    exists c0 : BezierCurve num,
      new_BezierCurve input = Normal c0 /\
      well_formed (perform_all l c0) /\
      fst (interpolate (perform_all l c0)) = Normal tt /\
      (forall canvas w h n,
         fst (animate (mkWorld (perform_all l c0) canvas w h n)) = Normal tt /\
         frameRequests (snd (animate (mkWorld (perform_all l c0) canvas w h n)))
         = S n).
Proof.
  intros num NumOps input l Hi Hl.
  destruct input as [| a [| b [| d rest]]]; simpl in Hi; try lia.
  eexists. split; [apply new_BezierCurve_ok |].
  match goal with |- well_formed (perform_all l ?c) /\ _ => set (c0 := c) end.
  assert (W0 : well_formed c0).
  { split; simpl; [rewrite length_map; simpl; lia | reflexivity]. }
  pose proof (perform_all_well_formed l c0 Hl W0) as W.
  split; [exact W |]. split; [now rewrite (interpolate_wf _ W) |].
  intros canvas w h n.
  rewrite (animate_wf (mkWorld (perform_all l c0) canvas w h n) W).
  split; reflexivity.
Qed.

Lemma page_never_throws_witness :
  exists c0 : BezierCurve float,
    new_BezierCurve example_input = Normal c0 /\
    well_formed
      (perform_all
         [ev_showButton; ev_frame [] 800%float 600%float;
          ev_pointerdown 5%float 5%float; ev_pointermove 50%float 60%float;
          ev_pointerup 50%float 60%float; call_interpolate] c0) /\
    fst (interpolate
           (perform_all
              [ev_showButton; ev_frame [] 800%float 600%float;
               ev_pointerdown 5%float 5%float; ev_pointermove 50%float 60%float;
               ev_pointerup 50%float 60%float; call_interpolate] c0))
    = Normal tt /\
    (forall canvas w h n,
       fst (animate
              (mkWorld
                 (perform_all
                    [ev_showButton; ev_frame [] 800%float 600%float;
                     ev_pointerdown 5%float 5%float;
                     ev_pointermove 50%float 60%float;
                     ev_pointerup 50%float 60%float; call_interpolate] c0)
                 canvas w h n)) = Normal tt /\
       frameRequests
         (snd (animate
                 (mkWorld
                    (perform_all
                       [ev_showButton; ev_frame [] 800%float 600%float;
                        ev_pointerdown 5%float 5%float;
                        ev_pointermove 50%float 60%float;
                        ev_pointerup 50%float 60%float; call_interpolate] c0)
                    canvas w h n))) = S n).
Proof.
  apply (page_never_throws float JSNumber example_input).
  - simpl. lia.
  - repeat constructor.
Defined.

(** X2.  In every reachable state each control point has radius 12, has
    one of the three colours of the script, and has the drag colour if and
    only if its [dragging] property is true. *)
Theorem control_points_styled :
  forall (num : Type) (NumOps : Number num)
         (input : list (PointInput num)) (c : BezierCurve num),
    reachable input c ->
    forall p, In p (controlPoints c) ->
      radius (point p) = nlit 12 /\
      (dragging p = true <-> color (point p) = DRAG_COLOR) /\
      (color (point p) = DEFAULT_COLOR \/ color (point p) = HOVER_COLOR \/
       color (point p) = DRAG_COLOR).
Proof.
  intros num NumOps input c H.
  assert (S : Forall styled (controlPoints c)).
  { induction H as [c H | c a _ IH].
    - destruct (new_BezierCurve_inv input c H) as (_ & -> & _).
      apply Forall_forall. intros p Hp. apply in_map_iff in Hp.
      destruct Hp as (q & <- & _). apply styled_loaded.
    - now apply perform_styled. }
  intros p Hp. rewrite Forall_forall in S. exact (S p Hp).
Qed.

Lemma control_points_styled_witness :
  let p := drag (loaded (at_ 100 100 "P0")) in
  radius (point p) = nlit 12 /\
  (dragging p = true <-> color (point p) = DRAG_COLOR) /\
  (color (point p) = DEFAULT_COLOR \/ color (point p) = HOVER_COLOR \/
   color (point p) = DRAG_COLOR).
Proof.
  assert (N : new_BezierCurve overlapping_input = Normal overlapping_curve)
    by (vm_compute; reflexivity).
  refine (control_points_styled float JSNumber overlapping_input _
            (reach_step _ _ (ev_pointerdown 102%float 100%float)
               (reach_new _ _ N)) _ _).
  apply (nth_error_In _ 0). vm_compute. reflexivity.
Defined.

(** X3.  In every reachable state the curve has its six markers, each of
    radius 3 and black, labelled Q0, Q1, Q2, R0, R1 (with subscript
    digits) and B in this order: nothing but their coordinates changes
    after the construction, not even on a reload. *)
Theorem markers_keep_their_style :
  forall (num : Type) (NumOps : Number num)
         (input : list (PointInput num)) (c : BezierCurve num),
    reachable input c ->
    map attrs (interpolationPoints c) = marker_styles.
Proof.
  intros num NumOps input c H. induction H as [c H | c a _ IH].
  - destruct (Nat.lt_ge_cases (List.length input) 3) as [L | L].
    + rewrite (new_BezierCurve_throws input L) in H. discriminate.
    + destruct input as [| a [| b [| d rest]]]; simpl in L; try lia.
      rewrite new_BezierCurve_ok in H. injection H as <-. reflexivity.
  - now rewrite perform_attrs.
Qed.

Lemma markers_keep_their_style_witness :
  map attrs
    (interpolationPoints
       (perform (call_loadControlPoints five_points)
          (perform call_interpolate example_curve))) = marker_styles.
Proof.
  assert (N : new_BezierCurve example_input = Normal example_curve)
    by (vm_compute; reflexivity).
  exact (markers_keep_their_style float JSNumber example_input _
           (reach_step _ _ (call_loadControlPoints five_points)
              (reach_step _ _ call_interpolate (reach_new _ _ N)))).
Defined.

(** X4.  A reload while the curve's dragging flag is set leaves the flag
    set with no control point being dragged, and from then on no action
    changes that: the flag stays set, no control point is ever dragged
    again, and every later pointer-down leaves the control points as they
    are. *)
Theorem reload_during_drag_ends_dragging :
  forall (num : Type) (NumOps : Number num) (c : BezierCurve num)
         (input : list (PointInput num)) (l : list (Action num)),
    curve_dragging c = true ->
    curve_dragging
      (perform_all l (perform (call_loadControlPoints input) c)) = true /\
    dragged
      (controlPoints
         (perform_all l (perform (call_loadControlPoints input) c))) = 0 /\
    (forall ex ey,
       pointerdown ex ey
         (perform_all l (perform (call_loadControlPoints input) c)) =
       perform_all l (perform (call_loadControlPoints input) c)).
Proof.
  intros num NumOps c input l F.
  assert (S0 : drag_stuck (perform (call_loadControlPoints input) c)).
  { simpl. rewrite loadControlPoints_eq. split; simpl;
      [exact F | apply loaded_not_dragging]. }
  assert (S : drag_stuck
                (perform_all l (perform (call_loadControlPoints input) c))).
  { revert S0. generalize (perform (call_loadControlPoints input) c).
    induction l as [| a l IH]; intros c0 S0; simpl; [exact S0 |].
    apply IH. now apply perform_drag_stuck. }
  destruct S as [S1 S2]. split; [exact S1 |]. split; [exact S2 |].
  intros ex ey. unfold pointerdown, listener. rewrite S1.
  rewrite pointerdown_forEach_flag_set.
  destruct (perform_all l _); simpl in *. now subst.
Qed.

Lemma reload_during_drag_ends_dragging_witness :
  let c := perform (ev_pointerdown 102%float 100%float) overlapping_curve in
  let l := [ev_pointerup 102%float 100%float;
            ev_pointerdown 0%float 0%float;
            ev_pointermove 3%float 3%float] in
  curve_dragging
    (perform_all l (perform (call_loadControlPoints example_input) c)) = true /\
  dragged
    (controlPoints
       (perform_all l (perform (call_loadControlPoints example_input) c))) = 0 /\
  (forall ex ey,
     pointerdown ex ey
       (perform_all l (perform (call_loadControlPoints example_input) c)) =
     perform_all l (perform (call_loadControlPoints example_input) c)).
Proof.
  intros c l.
  apply (reload_during_drag_ends_dragging float JSNumber c example_input l).
  vm_compute. reflexivity.
Defined.

(** X5.  [pointermove] keeps the curve's flag, the markers, [t] and the
    [dragging] property, radius and label of every control point.  A
    control point that is being dragged is put at the pointer and keeps
    its colour; any other stays where it is and takes the hover colour if
    the curve's flag is clear and it contains the pointer, the default
    colour otherwise (so no point shows the hover colour during a drag). *)
Theorem pointermove_effect :
  forall (num : Type) (NumOps : Number num) (c : BezierCurve num)
         (ex ey : num),
    curve_dragging (pointermove ex ey c) = curve_dragging c /\
    interpolationPoints (pointermove ex ey c) = interpolationPoints c /\
    t (pointermove ex ey c) = t c /\
    List.length (controlPoints (pointermove ex ey c)) =
      List.length (controlPoints c) /\
    (forall i p,
       nth_error (controlPoints c) i = Some p ->
       exists p',
         nth_error (controlPoints (pointermove ex ey c)) i = Some p' /\
         dragging p' = dragging p /\
         radius (point p') = radius (point p) /\
         label (point p') = label (point p) /\
         (dragging p = true ->
          position (point p') = (ex, ey) /\
          color (point p') = color (point p)) /\
         (dragging p = false ->
          position (point p') = position (point p) /\
          color (point p') =
            if negb (curve_dragging c) && contains (point p) ex ey
            then HOVER_COLOR else DEFAULT_COLOR)).
Proof.
  intros num NumOps c ex ey. unfold pointermove, listener.
  rewrite pointermove_forEach_map. simpl.
  split; [reflexivity |]. split; [reflexivity |]. split; [reflexivity |].
  split; [apply length_map |].
  intros i p Hi. exists (after_pointermove ex ey (curve_dragging c) p).
  split; [now apply map_nth_error |].
  unfold after_pointermove, pointermove_callback.
  destruct (dragging p) eqn:D; simpl.
  - repeat split; auto; discriminate.
  - destruct (negb (curve_dragging c) && contains (point p) ex ey); simpl;
      repeat split; auto; discriminate.
Qed.

(** X6.  After [pointerup] no control point is being dragged.  A control
    point that was being dragged is left at the pointer, with the default
    colour; every other control point is untouched.  The curve's flag is
    cleared if some control point was being dragged; if none was, the
    listener changes nothing at all. *)
Theorem pointerup_effect :
  forall (num : Type) (NumOps : Number num) (c : BezierCurve num)
         (ex ey : num),
    dragged (controlPoints (pointerup ex ey c)) = 0 /\
    (dragged (controlPoints c) = 0 -> pointerup ex ey c = c) /\
    (0 < dragged (controlPoints c) ->
     curve_dragging (pointerup ex ey c) = false) /\
    (forall i p,
       nth_error (controlPoints c) i = Some p ->
       (dragging p = false ->
        nth_error (controlPoints (pointerup ex ey c)) i = Some p) /\
       (dragging p = true ->
        exists p',
          nth_error (controlPoints (pointerup ex ey c)) i = Some p' /\
          position (point p') = (ex, ey) /\
          color (point p') = DEFAULT_COLOR /\
          dragging p' = false /\
          radius (point p') = radius (point p) /\
          label (point p') = label (point p))).
Proof.
  intros num NumOps c ex ey.
  pose proof (pointerup_forEach ex ey (controlPoints c) (curve_dragging c)) as H.
  unfold pointerup, listener. rewrite pointerup_forEach_map in *.
  destruct H as (H1 & H2 & H3). simpl.
  split; [exact H1 |]. split; [| split; [exact H3 |]].
  - intros D. rewrite (H2 D).
    rewrite (map_id_on (after_pointerup ex ey) (fun p => dragging p = false)).
    + now destruct c.
    + intros p Hp. unfold after_pointerup. now rewrite Hp.
    + now apply dragged_none.
  - intros i p Hi.
    pose proof (map_nth_error (after_pointerup ex ey) _ _ Hi) as E.
    unfold after_pointerup in E at 2. split; intros D; rewrite D in E.
    + exact E.
    + eexists. split; [exact E |]. repeat split.
Qed.

(** X7.  [pointerdown] never moves a control point and never changes a
    radius or a label, whatever the state; with the flag clear and no
    control point under the pointer it changes nothing at all. *)
Theorem pointerdown_moves_nothing :
  forall (num : Type) (NumOps : Number num) (c : BezierCurve num)
         (ex ey : num),
    map (fun p => (position (point p), radius (point p), label (point p)))
      (controlPoints (pointerdown ex ey c)) =
    map (fun p => (position (point p), radius (point p), label (point p)))
      (controlPoints c) /\
    interpolationPoints (pointerdown ex ey c) = interpolationPoints c /\
    t (pointerdown ex ey c) = t c /\
    (curve_dragging c = false ->
     Forall (fun q => contains (point q) ex ey = false) (controlPoints c) ->
     pointerdown ex ey c = c).
Proof.
  intros num NumOps c ex ey.
  destruct (listener_facts (pointerdown_callback ex ey) c)
    as (E1 & _ & E2 & E3 & _).
  unfold pointerdown. rewrite E1, E2, E3. clear E1 E2 E3.
  split; [| split; [reflexivity | split; [reflexivity |]]].
  - generalize (curve_dragging c).
    induction (controlPoints c) as [| a ps IH]; intros d; simpl;
      [reflexivity |].
    assert (A : (position (point (fst (pointerdown_callback ex ey a d))),
                 radius (point (fst (pointerdown_callback ex ey a d))),
                 label (point (fst (pointerdown_callback ex ey a d)))) =
                (position (point a), radius (point a), label (point a))).
    { unfold pointerdown_callback.
      destruct (contains (point a) ex ey); [| reflexivity].
      destruct (negb d); reflexivity. }
    destruct (pointerdown_callback ex ey a d) as [a' d'].
    specialize (IH d').
    destruct (forEach (pointerdown_callback ex ey) ps d') as [ps' d''].
    simpl in *. now rewrite A, IH.
  - intros F M. unfold listener. rewrite F.
    rewrite (pointerdown_forEach_miss ex ey _ M). destruct c; simpl in *.
    now subst.
Qed.

(** X8.  A whole drag.  With the flag clear and no control point being
    dragged, a pointer-down whose first hit is control point [i], a
    pointer-move to (mx,my) and a pointer-up at (ux,uy): after the move
    control point [i] is at (mx,my) in the drag colour and every other
    control point has the default colour; after the release control point
    [i] is at (ux,uy), in the default colour and not dragged, every other
    control point is where it was, the curve's flag is clear again, and
    markers and [t] have not changed. *)
Theorem drag_and_drop :
  forall (num : Type) (NumOps : Number num) (c : BezierCurve num)
         (dx dy mx my ux uy : num) (i : nat) (p : DraggablePoint num),
    curve_dragging c = false ->
    dragged (controlPoints c) = 0 ->
    nth_error (controlPoints c) i = Some p ->
    contains (point p) dx dy = true ->
    (forall k r, k < i -> nth_error (controlPoints c) k = Some r ->
                 contains (point r) dx dy = false) ->
    controlPoints (pointermove mx my (pointerdown dx dy c)) =
      update i (move (drag p) mx my) (map default (controlPoints c)) /\
    controlPoints (pointerup ux uy (pointermove mx my (pointerdown dx dy c))) =
      update i (move (default p) ux uy) (map default (controlPoints c)) /\
    curve_dragging (pointerup ux uy (pointermove mx my (pointerdown dx dy c)))
      = false /\
    interpolationPoints
      (pointerup ux uy (pointermove mx my (pointerdown dx dy c))) =
      interpolationPoints c /\
    t (pointerup ux uy (pointermove mx my (pointerdown dx dy c))) = t c.
Proof.
  intros num NumOps c dx dy mx my ux uy i p F D Hi Hc First.
  assert (ND : Forall (fun q => dragging q = false) (controlPoints c))
    by now apply dragged_none.
  set (c1 := pointerdown dx dy c).
  destruct (listener_facts (pointerdown_callback dx dy) c)
    as (A1 & A2 & A3 & A4 & _).
  fold (pointerdown dx dy c) in A1, A2, A3, A4. fold c1 in A1, A2, A3, A4.
  rewrite F, (pointerdown_forEach_first dx dy _ i p Hi Hc First) in A1, A2.
  simpl in A1, A2.
  set (c2 := pointermove mx my c1).
  destruct (listener_facts (pointermove_callback mx my) c1)
    as (B1 & B2 & B3 & B4 & _).
  fold (pointermove mx my c1) in B1, B2, B3, B4. fold c2 in B1, B2, B3, B4.
  rewrite pointermove_forEach_map, A1, A2 in B1, B2. simpl in B1, B2.
  rewrite update_map in B1.
  rewrite (map_same_on (after_pointermove mx my true) default
             (fun q => dragging q = false)) in B1; [| | exact ND].
  2:{ intros q Hq. unfold after_pointermove, pointermove_callback.
      now rewrite Hq. }
  change (after_pointermove mx my true (drag p)) with (move (drag p) mx my) in B1.
  split; [exact B1 |].
  destruct (listener_facts (pointerup_callback ux uy) c2)
    as (C1 & C2 & C3 & C4 & _).
  fold (pointerup ux uy c2) in C1, C2, C3, C4.
  rewrite pointerup_forEach_map, B1 in C1, C2. simpl in C1, C2.
  rewrite update_map in C1.
  rewrite (map_id_on (after_pointerup ux uy) (fun q => dragging q = false))
    in C1.
  2:{ intros q Hq. unfold after_pointerup. now rewrite Hq. }
  2:{ apply Forall_map. apply Forall_forall. intros q _. reflexivity. }
  rewrite (existsb_update i _ (default p)) in C2;
    [| now apply map_nth_error | reflexivity].
  split; [| split; [exact C2 | split; congruence]].
  rewrite C1. f_equal.
Qed.

Lemma drag_and_drop_witness :
  let c := overlapping_curve in
  let p := loaded (at_ 100 100 "P0") in
  controlPoints (pointermove 150%float 160%float (pointerdown 102%float 100%float c)) =
    update 0 (move (drag p) 150%float 160%float) (map default (controlPoints c)) /\
  controlPoints
    (pointerup 170%float 180%float
       (pointermove 150%float 160%float (pointerdown 102%float 100%float c))) =
    update 0 (move (default p) 170%float 180%float)
      (map default (controlPoints c)) /\
  curve_dragging
    (pointerup 170%float 180%float
       (pointermove 150%float 160%float (pointerdown 102%float 100%float c)))
    = false /\
  interpolationPoints
    (pointerup 170%float 180%float
       (pointermove 150%float 160%float (pointerdown 102%float 100%float c))) =
    interpolationPoints c /\
  t (pointerup 170%float 180%float
       (pointermove 150%float 160%float (pointerdown 102%float 100%float c)))
    = t c.
Proof.
  intros c p.
  apply (drag_and_drop float JSNumber c 102%float 100%float
           150%float 160%float 170%float 180%float 0 p).
  - vm_compute. reflexivity.
  - vm_compute. reflexivity.
  - vm_compute. reflexivity.
  - vm_compute. reflexivity.
  - intros k r Hk. lia.
Defined.

(** X9.  On a curve with fewer than four control points a frame throws a
    TypeError inside [draw], after the surface was cleared and the path
    begun: the curve is left as it was and no further frame is requested,
    so the animation ends there. *)
Theorem animate_stops_without_four_points :
  forall (num : Type) (NumOps : Number num) (w : World num),
    List.length (controlPoints (curve w)) < 4 ->
    fst (animate w) = Throw TypeError /\
    curve (snd (animate w)) = curve w /\
    frameRequests (snd (animate w)) = frameRequests w /\
    exists calls,
      ctx (snd (animate w)) =
      (ctx w ++
       clearRect (nlit 0) (nlit 0) (canvas_width w) (canvas_height w)
       :: beginPath :: calls)%list.
Proof.
  intros num NumOps w H.
  assert (D : fst (BezierCurve_draw (curve w) []) = Throw TypeError /\
              exists calls, snd (BezierCurve_draw (curve w) []) = beginPath :: calls).
  { destruct (curve w) as [cps ms t0 d hv it ps]. simpl in H.
    destruct cps as [| P0 [| P1 [| P2 [| P3 rest]]]]; simpl in H; try lia;
      (split; [reflexivity | eexists; reflexivity]). }
  destruct D as [D1 (calls & D2)].
  pose proof (appends_BezierCurve_draw (curve w)
                (ctx w ++ [clearRect (nlit 0) (nlit 0) (canvas_width w)
                             (canvas_height w)])%list) as E.
  rewrite D1, D2, <- app_assoc in E. simpl in E.
  unfold animate, bind, getW, on_ctx, on_curve, when_, requestAnimationFrame.
  simpl. rewrite !E. simpl.
  repeat split. now exists calls.
Qed.

Lemma animate_stops_without_four_points_witness :
  let w := mkWorld short_curve [] 800%float 600%float 0 in
  fst (animate w) = Throw TypeError /\
  curve (snd (animate w)) = curve w /\
  frameRequests (snd (animate w)) = frameRequests w /\
  exists calls,
    ctx (snd (animate w)) =
    (ctx w ++
     clearRect (nlit 0) (nlit 0) (canvas_width w) (canvas_height w)
     :: beginPath :: calls)%list.
Proof.
  intros w.
  apply (animate_stops_without_four_points float JSNumber w).
  vm_compute. lia.
Defined.

(** X10.  On three control points [interpolate] throws a TypeError when it
    reads the fourth, having moved Q0 and Q1 to their new positions: the
    four other markers, [t] and the rest of the curve are as before. *)
Theorem interpolate_with_three_control_points :
  forall (num : Type) (NumOps : Number num) (c : BezierCurve num)
         P0 P1 P2 m0 m1 m2 m3 m4 m5,
    controlPoints c = [P0; P1; P2] ->
    interpolationPoints c = [m0; m1; m2; m3; m4; m5] ->
    interpolate c =
    (Throw TypeError,
     with_interpolationPoints c
       [ place m0 (lerp2 (position (point P0)) (position (point P1)) (t c));
         place m1 (lerp2 (position (point P1)) (position (point P2)) (t c));
         m2; m3; m4; m5 ]).
Proof.
  intros num NumOps c P0 P1 P2 m0 m1 m2 m3 m4 m5 Hc Hm.
  destruct c; simpl in Hc, Hm; subst. reflexivity.
Qed.

Lemma interpolate_with_three_control_points_witness :
  fst (interpolate short_curve) = Throw TypeError /\
  map position (interpolationPoints (snd (interpolate short_curve))) =
  [ (0, 0); (0, 100); (100, 100); (0, 0); (0, 100); (0, 0) ]%float /\
  t (snd (interpolate short_curve)) = 0%float.
Proof.
  assert (Hc : controlPoints short_curve =
               [loaded (at_ 0 0 "P0"); loaded (at_ 0 100 "P1");
                loaded (at_ 100 100 "P2")]) by (vm_compute; reflexivity).
  assert (Hm : interpolationPoints short_curve =
               initial_markers (loaded (at_ 0 0 "P0")) (loaded (at_ 0 100 "P1"))
                 (loaded (at_ 100 100 "P2"))) by (vm_compute; reflexivity).
  rewrite (interpolate_with_three_control_points float JSNumber short_curve
             _ _ _ _ _ _ _ _ _ Hc Hm).
  split; [reflexivity |]. split; vm_compute; reflexivity.
Defined.






(** X12.  In exact arithmetic the marker B that [interpolate] computes is
    the point of the cubic Bezier curve of P0..P3 at [t], in Bernstein
    form: (1-t)^3 P0 + 3t(1-t)^2 P1 + 3t^2(1-t) P2 + t^3 P3.  At t = 0 it
    is P0 and at t = 1 it is P3. *)
Theorem B_is_on_the_cubic :
  forall (c : BezierCurve Q) P0 P1 P2 P3 rest,
    controlPoints c = P0 :: P1 :: P2 :: P3 :: rest ->
    List.length (interpolationPoints c) = 6 ->
    exists B,
      nth_error (interpolationPoints (snd (interpolate c))) 5 = Some B /\
      (x B == fst (bernstein (position (point P0)) (position (point P1))
                     (position (point P2)) (position (point P3)) (t c)))%Q /\
      (y B == snd (bernstein (position (point P0)) (position (point P1))
                     (position (point P2)) (position (point P3)) (t c)))%Q /\
      ((t c == 0)%Q ->
       (x B == x (point P0))%Q /\ (y B == y (point P0))%Q) /\
      ((t c == 1)%Q ->
       (x B == x (point P3))%Q /\ (y B == y (point P3))%Q).
Proof.
  intros c P0 P1 P2 P3 rest Hc Hm.
  assert (W : well_formed c) by (split; [rewrite Hc; simpl; lia | exact Hm]).
  rewrite (interpolate_wf c W). simpl. rewrite interpolated_markers.
  pose proof (moved_markers_positions c P0 P1 P2 P3 rest Hc Hm) as E.
  destruct (moved_markers c) as [| q0 [| q1 [| q2 [| r0 [| r1 [| B ms]]]]]];
    try discriminate E.
  exists B. split; [reflexivity |].
  pose proof (f_equal (fun l => fst (nth 5 l (0 # 1, 0 # 1)%Q)) E) as Ex.
  pose proof (f_equal (fun l => snd (nth 5 l (0 # 1, 0 # 1)%Q)) E) as Ey.
  unfold de_casteljau in Ex, Ey.
  cbn [map nth fst snd position lerp2] in Ex, Ey.
  rewrite Ex, Ey. unfold bernstein, lerp, position.
  cbn [fst snd nadd nsub nmul nlit ExactNumber].
  set (a := t c).
  split; [ring |]. split; [ring |].
  split; intros Ha; rewrite Ha; split; ring.
Qed.

Lemma B_is_on_the_cubic_witness :
  exists B,
    nth_error (interpolationPoints (snd (interpolate exact_example_curve))) 5
    = Some B /\
    (x B == fst (bernstein (0 # 1, 0 # 1) (0 # 1, 100 # 1) (100 # 1, 100 # 1)
                   (100 # 1, 0 # 1) (1 # 2)))%Q /\
    (y B == snd (bernstein (0 # 1, 0 # 1) (0 # 1, 100 # 1) (100 # 1, 100 # 1)
                   (100 # 1, 0 # 1) (1 # 2)))%Q /\
    ((1 # 2 == 0)%Q -> (x B == 0 # 1)%Q /\ (y B == 0 # 1)%Q) /\
    ((1 # 2 == 1)%Q -> (x B == 100 # 1)%Q /\ (y B == 0 # 1)%Q).
Proof.
  exact (B_is_on_the_cubic exact_example_curve
           (loaded (exact_at 0 0 "P0")) (loaded (exact_at 0 100 "P1"))
           (loaded (exact_at 100 100 "P2")) (loaded (exact_at 100 0 "P3")) []
           eq_refl eq_refl).
Defined.

Lemma t_after_plus_200 (k : nat) : t_after (k + 200) = t_after k.
Proof.
  unfold t_after. rewrite Nat.iter_add.
  change (Nat.iter 200 advance (nlit 0)) with (t_after 200).
  now rewrite t_after_200.
Qed.

Lemma t_after_mod (n : nat) : t_after n = t_after (n mod 200).
Proof.
  rewrite (Nat.div_mod_eq n 200) at 1.
  generalize (n mod 200)%nat as r. generalize (n / 200)%nat as q.
  induction q as [| q IH]; intros r.
  - f_equal; lia.
  - replace (200 * S q + r)%nat with ((200 * q + r) + 200)%nat by lia.
    rewrite t_after_plus_200. apply IH.
Qed.

Lemma t_after_increasing (k : nat) :
  k < 199 -> PrimFloat.ltb (t_after k) (t_after (S k)) = true.
Proof.
  intros H.
  assert (A : forallb (fun k => PrimFloat.ltb (t_after k) (t_after (S k)))
                (seq 0 199) = true) by (vm_compute; reflexivity).
  rewrite forallb_forall in A. apply A. apply in_seq. lia.
Qed.

(** X13.  On an unpaused well-formed curve that starts at [t] = 0, [t]
    after [n] calls of [interpolate] is [t] after [n mod 200] calls: the
    parameter runs with period 200.  Within a period it grows strictly
    with every call, from 0 to 0.99500000000000077. *)
Theorem t_runs_with_period_200 :
  forall (c : BezierCurve float),
    well_formed c -> t c = 0%float -> paused c = false ->
    (forall n,
       t (interpolate_times n c) = t (interpolate_times (n mod 200) c)) /\
    (forall k, k < 199 ->
       (t (interpolate_times k c) <? t (interpolate_times (S k) c)) = true) /\
    t (interpolate_times 199 c) = 0x1.fd70a3d70a3dep-1%float.
Proof.
  intros c W T P.
  assert (E : forall n, t (interpolate_times n c) = t_after n).
  { intros n. destruct (interpolate_times_wf n c W) as (_ & _ & _ & E).
    rewrite E, P, T. reflexivity. }
  split; [| split].
  - intros n. rewrite !E. apply t_after_mod.
  - intros k Hk. rewrite !E. now apply t_after_increasing.
  - rewrite E. vm_compute. reflexivity.
Qed.

Lemma t_runs_with_period_200_witness :
  (forall n,
     t (interpolate_times n example_curve) =
     t (interpolate_times (n mod 200) example_curve)) /\
  (forall k, k < 199 ->
     (t (interpolate_times k example_curve) <?
      t (interpolate_times (S k) example_curve)) = true) /\
  t (interpolate_times 199 example_curve) = 0x1.fd70a3d70a3dep-1%float.
Proof.
  apply (t_runs_with_period_200 example_curve).
  - split; simpl; lia.
  - reflexivity.
  - reflexivity.
Defined.

Lemma frames_while_paused {num : Type} {NumOps : Number num}
  (n : nat) (canvas : Context2D num) (w h : num) (c : BezierCurve num) :
  paused c = true ->
  paused (perform_all (frames n canvas w h) c) = true /\
  t (perform_all (frames n canvas w h) c) = t c /\
  controlPoints (perform_all (frames n canvas w h) c) = controlPoints c /\
  interpolating (perform_all (frames n canvas w h) c) = interpolating c /\
  (well_formed c -> well_formed (perform_all (frames n canvas w h) c)).
Proof.
  revert c. induction n as [| n IH]; intros c P; simpl;
    [split; [| split; [| split; [| split]]]; auto |].
  set (c1 := curve (snd (animate (mkWorld c canvas w h 0)))).
  assert (A : paused c1 = true /\ t c1 = t c /\
              controlPoints c1 = controlPoints c /\
              interpolating c1 = interpolating c /\
              (well_formed c -> well_formed c1)).
  { unfold c1.
    destruct (animate_curve (mkWorld c canvas w h 0)) as [Hsame | [_ Hstep]];
      [rewrite Hsame; simpl; split; [| split; [| split; [| split]]]; auto
      | rewrite Hstep; cbn [curve]].
    destruct (interpolate_frame c) as (F1 & _ & _ & _ & F5 & F6).
    rewrite F1, F5, F6, (interpolate_paused_t c P).
    split; [| split; [| split; [| split]]]; auto.
    intros W. rewrite (interpolate_wf c W). simpl. now apply interpolated_wf. }
  destruct A as (A1 & A2 & A3 & A4 & A5).
  destruct (IH c1 A1) as (I1 & I2 & I3 & I4 & I5).
  unfold frames in *. fold c1.
  rewrite I2, I3, I4, A2, A3, A4.
  split; [| split; [| split; [| split]]]; auto.
Qed.

(** X14.  The pause button stops the animation and gives it back.  From a
    running curve, a click pauses; any number of frames then leaves [t]
    and the control points as they are; a second click lets the curve run
    again with [t] where it was; and, on a well-formed curve with the
    overlay on, the next frame advances [t] by one step from there. *)
Theorem pause_button_freezes_t :
  forall (num : Type) (NumOps : Number num) (c : BezierCurve num)
         (n : nat) (canvas : Context2D num) (w h : num),
    paused c = false ->
    paused (snd (pauseButton_click c)) = true /\
    t (perform_all (frames n canvas w h) (snd (pauseButton_click c))) = t c /\
    controlPoints (perform_all (frames n canvas w h) (snd (pauseButton_click c)))
      = controlPoints c /\
    paused (snd (pauseButton_click
                   (perform_all (frames n canvas w h)
                      (snd (pauseButton_click c))))) = false /\
    t (snd (pauseButton_click
              (perform_all (frames n canvas w h)
                 (snd (pauseButton_click c))))) = t c /\
    (well_formed c -> interpolating c = true ->
     t (perform (ev_frame canvas w h)
          (snd (pauseButton_click
                  (perform_all (frames n canvas w h)
                     (snd (pauseButton_click c)))))) = advance (t c)).
Proof.
  intros num NumOps c n canvas w h P.
  assert (E1 : snd (pauseButton_click c) = with_paused c true).
  { unfold pauseButton_click, bind, isPaused, get. now rewrite P. }
  rewrite E1.
  destruct (frames_while_paused n canvas w h (with_paused c true) eq_refl)
    as (F1 & F2 & F3 & F4 & F5).
  set (c2 := perform_all (frames n canvas w h) (with_paused c true)) in *.
  assert (E2 : snd (pauseButton_click c2) = with_paused c2 false).
  { unfold pauseButton_click, bind, isPaused, get. now rewrite F1. }
  rewrite E2. simpl in *.
  split; [reflexivity |]. split; [exact F2 |]. split; [exact F3 |].
  split; [reflexivity |]. split; [exact F2 |].
  intros W I.
  assert (W3 : well_formed (with_paused c2 false)) by (apply F5, W).
  rewrite (animate_wf (mkWorld (with_paused c2 false) canvas w h 0) W3).
  simpl. rewrite F4, I. rewrite interpolated_t. simpl. now rewrite F2.
Qed.

Lemma pause_button_freezes_t_witness :
  let c := with_interpolating example_curve true in
  let paused_frames :=
    perform_all (frames 7 [] 800%float 600%float) (snd (pauseButton_click c)) in
  paused (snd (pauseButton_click c)) = true /\
  t paused_frames = t c /\
  controlPoints paused_frames = controlPoints c /\
  paused (snd (pauseButton_click paused_frames)) = false /\
  t (snd (pauseButton_click paused_frames)) = t c /\
  (well_formed c -> interpolating c = true ->
   t (perform (ev_frame [] 800%float 600%float)
        (snd (pauseButton_click paused_frames))) = advance (t c)).
Proof.
  intros c paused_frames.
  apply (pause_button_freezes_t float JSNumber c 7 [] 800%float 600%float).
  reflexivity.
Defined.

(** X15.  [loadControlPoints] returns for every list and replaces the
    control points: the curve then has one control point per element, in
    order, at the element's coordinates, of radius 12, in the default
    colour, not dragged, labelled as the element says (unlabelled without
    a label).  The points there before are gone, so that a second reload
    gives the same curve whatever the first loaded; markers, [t] and the
    four flags are not reset. *)
Theorem reload_replaces_control_points :
  forall (num : Type) (NumOps : Number num) (c : BezierCurve num)
         (input input' : list (PointInput num)),
    fst (loadControlPoints input c) = Normal tt /\
    List.length (controlPoints (snd (loadControlPoints input c))) =
      List.length input /\
    (forall i q,
       nth_error input i = Some q ->
       exists p,
         nth_error (controlPoints (snd (loadControlPoints input c))) i = Some p /\
         position (point p) = (coord_x (coord q), coord_y (coord q)) /\
         radius (point p) = nlit 12 /\
         color (point p) = DEFAULT_COLOR /\
         label (point p) =
           match input_label q with Some s => s | None => "" end /\
         dragging p = false) /\
    interpolationPoints (snd (loadControlPoints input c)) = interpolationPoints c /\
    t (snd (loadControlPoints input c)) = t c /\
    curve_dragging (snd (loadControlPoints input c)) = curve_dragging c /\
    hovering (snd (loadControlPoints input c)) = hovering c /\
    interpolating (snd (loadControlPoints input c)) = interpolating c /\
    paused (snd (loadControlPoints input c)) = paused c /\
    snd (loadControlPoints input' (snd (loadControlPoints input c))) =
    snd (loadControlPoints input' c).
Proof.
  intros num NumOps c input input'.
  rewrite !loadControlPoints_eq. simpl.
  split; [reflexivity |]. split; [apply length_map |].
  split; [| repeat split].
  intros i q Hq. exists (loaded q).
  split; [now apply map_nth_error | repeat split].
Qed.

(** X16.  A curve as the constructor returns it (three elements or more):
    Q0, Q1, Q2 are at P0, P1, P2, R0 and R1 at P0 and P1, B at P0; [t] is
    0, the four flags are false and no control point is dragged. *)
Theorem constructed_curve :
  forall (num : Type) (NumOps : Number num)
         (input : list (PointInput num)) (c : BezierCurve num),
    new_BezierCurve input = Normal c ->
    exists P0 P1 P2 rest,
      controlPoints c = P0 :: P1 :: P2 :: rest /\
      map position (interpolationPoints c) =
        [ position (point P0); position (point P1); position (point P2);
          position (point P0); position (point P1); position (point P0) ] /\
      t c = nlit 0 /\ curve_dragging c = false /\ hovering c = false /\
      interpolating c = false /\ paused c = false /\
      dragged (controlPoints c) = 0.
Proof.
  intros num NumOps input c H.
  destruct (Nat.lt_ge_cases (List.length input) 3) as [L | L].
  - rewrite (new_BezierCurve_throws input L) in H. discriminate.
  - destruct input as [| a [| b [| d rest]]]; simpl in L; try lia.
    rewrite new_BezierCurve_ok in H. injection H as <-.
    exists (loaded a), (loaded b), (loaded d), (map loaded rest).
    repeat split. simpl. apply (loaded_not_dragging (a :: b :: d :: rest)).
Qed.

Lemma constructed_curve_witness :
  exists P0 P1 P2 rest,
    controlPoints example_curve = P0 :: P1 :: P2 :: rest /\
    map position (interpolationPoints example_curve) =
      [ position (point P0); position (point P1); position (point P2);
        position (point P0); position (point P1); position (point P0) ] /\
    t example_curve = nlit 0 /\ curve_dragging example_curve = false /\
    hovering example_curve = false /\ interpolating example_curve = false /\
    paused example_curve = false /\
    dragged (controlPoints example_curve) = 0.
Proof.
  assert (N : new_BezierCurve example_input = Normal example_curve)
    by (vm_compute; reflexivity).
  exact (constructed_curve float JSNumber example_input example_curve N).
Defined.

(** X17.  In exact arithmetic [contains(x,y)] holds exactly when
    |x - cx| <= r and |y - cy| <= r: the test is of a square of side 2r,
    so a point of radius r >= 0 contains its centre and its four corners
    (cx +- r, cy +- r), and it contains nothing when r < 0. *)
Theorem contains_is_a_square :
  forall (p : Point Q) (qx qy : Q),
    (contains p qx qy = true <->
     (Qabs (qx - x p) <= radius p)%Q /\
     (Qabs (qy - y p) <= radius p)%Q) /\
    ((0 <= radius p)%Q ->
     contains p (x p) (y p) = true /\
     contains p (x p + radius p)%Q (y p + radius p)%Q = true /\
     contains p (x p - radius p)%Q (y p - radius p)%Q = true /\
     contains p (x p + radius p)%Q (y p - radius p)%Q = true /\
     contains p (x p - radius p)%Q (y p + radius p)%Q = true) /\
    ((radius p < 0)%Q -> contains p qx qy = false).
Proof.
  intros p qx qy.
  assert (E : forall ax ay,
             contains p ax ay = true <->
             (x p - radius p <= ax)%Q /\ (ax <= x p + radius p)%Q /\
             (y p - radius p <= ay)%Q /\ (ay <= y p + radius p)%Q).
  { intros ax ay. unfold contains.
    cbn [nle nadd nsub ExactNumber].
    rewrite !andb_true_iff, !Qle_bool_iff. tauto. }
  split; [| split].
  - rewrite E, !Qabs_Qle_condition. split.
    + intros (A & B & C & D). repeat split; lra.
    + intros ((A & B) & (C & D)). repeat split; lra.
  - intros R. rewrite !E. repeat split; lra.
  - intros R. destruct (contains p qx qy) eqn:C; [| reflexivity].
    apply E in C. lra.
Qed.

Lemma contains_is_a_square_witness :
  let p := mkPoint (100 # 1)%Q (100 # 1)%Q (12 # 1)%Q "" "" in
  contains p (x p) (y p) = true /\
  contains p (x p + radius p)%Q (y p + radius p)%Q = true /\
  contains p (x p - radius p)%Q (y p - radius p)%Q = true /\
  contains p (x p + radius p)%Q (y p - radius p)%Q = true /\
  contains p (x p - radius p)%Q (y p + radius p)%Q = true.
Proof.
  intros p.
  apply (proj1 (proj2 (contains_is_a_square p 0%Q 0%Q))).
  unfold Qle. simpl. lia.
Defined.

(** X18.  The default scene.  For every canvas size the constructor
    accepts [pointCoordinates]: the curve has four control points, labelled
    P with the subscripts 0 to 3, and is well formed.  In exact arithmetic,
    on a canvas of positive width [w] and height [h], the four points are
    strictly inside the canvas and mirror each other about its vertical
    middle: P0.x + P3.x = w, P1.x + P2.x = w, P0.y = P3.y, P1.y = P2.y. *)
Theorem default_scene :
  (forall (num : Type) (NumOps : Number num) (w h : num),
     exists c : BezierCurve num,
       new_BezierCurve (pointCoordinates w h) = Normal c /\
       well_formed c /\
       map (fun p => label (point p)) (controlPoints c) =
         [ "P" ++ fromCodePoint sub0; "P" ++ fromCodePoint (sub0 + 1);
           "P" ++ fromCodePoint (sub0 + 2); "P" ++ fromCodePoint (sub0 + 3) ] /\
       map (fun p => position (point p)) (controlPoints c) =
         map (fun q => (coord_x (coord q), coord_y (coord q)))
           (pointCoordinates w h)) /\
  (forall w h : Q,
     (0 < w)%Q -> (0 < h)%Q ->
     Forall (fun q => (0 < coord_x (coord q) < w)%Q /\
                      (0 < coord_y (coord q) < h)%Q)
       (pointCoordinates w h) /\
     match pointCoordinates w h with
     | [p0; p1; p2; p3] =>
         (coord_x (coord p0) + coord_x (coord p3) == w)%Q /\
         (coord_x (coord p1) + coord_x (coord p2) == w)%Q /\
         (coord_y (coord p0) == coord_y (coord p3))%Q /\
         (coord_y (coord p1) == coord_y (coord p2))%Q
     | _ => False
     end).
Proof.
  split.
  - intros num NumOps w h. eexists.
    split; [unfold pointCoordinates; apply new_BezierCurve_ok |].
    split; [split; simpl; lia |]. split; reflexivity.
  - intros w h Hw Hh. unfold pointCoordinates.
    cbn [nle nadd nsub nmul ndiv nlit ExactNumber coord coord_x coord_y].
    split.
    + repeat constructor; cbn [coord coord_x coord_y];
        try (apply Qlt_shift_div_l; lra); try (apply Qlt_shift_div_r; lra).
    + repeat split; try reflexivity; field.
Qed.

Lemma default_scene_witness :
  Forall (fun q => (0 < coord_x (coord q) < 800 # 1)%Q /\
                   (0 < coord_y (coord q) < 600 # 1)%Q)
    (pointCoordinates (800 # 1)%Q (600 # 1)%Q).
Proof.
  apply (proj2 default_scene (800 # 1)%Q (600 # 1)%Q).
  - unfold Qlt. simpl. lia.
  - unfold Qlt. simpl. lia.
Defined.
